(** * N.E.S.T collaboration network graph: a shallow embedding

    The development follows [app/static/js/network_graph.js].  The page
    script is a single closure: it fetches the graph once, and [render]
    builds the scales, the scene, the force simulation and the event
    handlers.  Here the DOM and the simulation are an explicit [page]
    value, every handler is a function on it, and an exception is an
    explicit [outcome].

    Numbers are exact rationals ([Q]): the script's arithmetic is
    affine, and IEEE rounding is outside the model.  Strings are
    sequences of 8-bit characters; [toLowerCase] folds the letters A-Z
    and leaves every other character as it is, so case folding outside
    ASCII is not modelled.

    The script runs on D3 v7.  The few D3 functions it calls
    ([d3.max], [d3.scaleLinear], the id lookup of [d3.forceLink]) are
    transcribed from the library's sources (d3-array/src/max.js,
    d3-scale/src/continuous.js, d3-force/src/link.js). *)

From Stdlib Require Import ZArith QArith Lqa Lia List String Ascii Bool.
From Stdlib Require Import Sorted Permutation.
From stdpp Require Import gmap strings.
Import ListNotations.

Local Open Scope string_scope.

(** ** JavaScript strings *)

Definition isUpper (c : ascii) : bool :=
  let n := nat_of_ascii c in (65 <=? n)%nat && (n <=? 90)%nat.

Definition lower_ascii (c : ascii) : ascii :=
  if isUpper c then ascii_of_nat (nat_of_ascii c + 32) else c.

(** [String.prototype.toLowerCase]. *)
Fixpoint toLowerCase (s : string) : string :=
  match s with
  | EmptyString => EmptyString
  | String c s' => String (lower_ascii c) (toLowerCase s')
  end.

(** [s.startsWith(t)]: [t] is read off the front of [s]. *)
Fixpoint startsWith (s t : string) {struct t} : bool :=
  match t, s with
  | EmptyString, _ => true
  | String _ _, EmptyString => false
  | String b t', String a s' => Ascii.eqb a b && startsWith s' t'
  end.

(** [String.prototype.includes]: some position of [s] starts with [t]. *)
Fixpoint includes (s t : string) : bool :=
  startsWith s t ||
  match s with
  | EmptyString => false
  | String _ s' => includes s' t
  end.

(** Truthiness of a string: only the empty string is falsy. *)
Definition truthy_string (s : string) : bool :=
  match s with EmptyString => false | String _ _ => true end.

(** [d.name.split(" ")[0]]: the characters before the first space. *)
Fixpoint first_token (s : string) : string :=
  match s with
  | EmptyString => EmptyString
  | String c s' =>
      if Ascii.eqb c " "%char then EmptyString else String c (first_token s')
  end.

(** ** Data model: the payload of [/graph/data] *)

Inductive node_id : Type :=
| IdNum (n : Z)
| IdStr (s : string).

Definition node_id_eqb (a b : node_id) : bool :=
  match a, b with
  | IdNum m, IdNum n => Z.eqb m n
  | IdStr s, IdStr t => String.eqb s t
  | _, _ => false
  end.

(** [archetype] is [None] when the field is missing ([undefined]). *)
Record node : Type := {
  node_id_of : node_id;
  node_name : string;
  node_department : string;
  node_archetype : option string;
  node_capabilities : list string;
  node_capability_count : Z;
  node_collab_count : Z
}.

Record link : Type := {
  link_source : node_id;
  link_target : node_id;
  link_weight : Q
}.

Record graph : Type := {
  nodes : list node;
  links : list link
}.

(** The graph as the data model of the specification constrains it. *)
Definition collab_counts_ok (ns : list node) : Prop :=
  forall n, In n ns -> (0 <= node_collab_count n)%Z.

Definition weights_ok (ls : list link) : Prop :=
  forall l, In l ls -> (1 <= link_weight l)%Q.

(** ** Color palette by archetype *)

(** What a property read on an object literal can produce here: nothing,
    one of the literal's own strings, or the member that the literal
    inherits from [Object.prototype] under that name. *)
Inductive jsval : Type :=
| JUndefined
| JString (s : string)
| JInherited (member : string).

Definition truthy (v : jsval) : bool :=
  match v with
  | JUndefined => false
  | JString s => truthy_string s
  | JInherited _ => true
  end.

(** The own properties of the [ARCHETYPE_COLORS] literal. *)
Definition ARCHETYPE_COLORS : gmap string string :=
  <["Builder" := "#6366f1"]>
  (<["Designer" := "#f472b6"]>
  (<["Researcher" := "#22d3ee"]>
  (<["Communicator" := "#facc15"]>
  (<["Strategist" := "#34d399"]>
  (<["Unknown" := "#94a3b8"]> ∅))))).

(** The property names every object literal inherits from
    [Object.prototype]; each of them holds a function or an object. *)
Definition Object_prototype_names : list string :=
  [ "constructor"; "__defineGetter__"; "__defineSetter__"; "hasOwnProperty";
    "__lookupGetter__"; "__lookupSetter__"; "isPrototypeOf";
    "propertyIsEnumerable"; "toString"; "valueOf"; "__proto__";
    "toLocaleString" ].

(** [o[k]] on an object literal: own properties first, then the
    prototype. *)
Definition get_property (o : gmap string string) (k : string) : jsval :=
  match o !! k with
  | Some s => JString s
  | None =>
      if existsb (String.eqb k) Object_prototype_names
      then JInherited k else JUndefined
  end.

(** A property key made from a value that may be [undefined]. *)
Definition toPropertyKey (a : option string) : string :=
  match a with
  | Some s => s
  | None => "undefined"
  end.

(** [ARCHETYPE_COLORS[a] || ARCHETYPE_COLORS.Unknown], the one expression
    the script uses wherever it needs an archetype's color. *)
Definition archetypeColor (a : option string) : jsval :=
  let v := get_property ARCHETYPE_COLORS (toPropertyKey a) in
  if truthy v then v else get_property ARCHETYPE_COLORS "Unknown".

(** ** Scales *)

Section Scales.
Local Open Scope Q_scope.

(** [d3.max(values)]: the running maximum, [undefined] on no values. *)
Fixpoint d3_max_from (m : option Q) (vs : list Q) : option Q :=
  match vs with
  | [] => m
  | v :: vs' =>
      d3_max_from
        (match m with
         | None => Some v
         | Some m0 => if QMicromega.Qlt_bool m0 v then Some v else Some m0
         end) vs'
  end.

Definition d3_max (vs : list Q) : option Q := d3_max_from None vs.

(** [m || 1] on a number that may be [undefined]: [undefined] and [0]
    are falsy. *)
Definition or_one (m : option Q) : Q :=
  match m with
  | None => 1
  | Some v => if Qeq_bool v 0 then 1 else v
  end.

(** d3-scale, continuous.js: [normalize(a, b)]. *)
Definition normalize (a b : Q) (x : Q) : Q :=
  if Qeq_bool (b - a) 0 then 0.5 else (x - a) / (b - a).

(** d3-interpolate: [interpolateNumber(a, b)]. *)
Definition interpolateNumber (a b : Q) (t : Q) : Q :=
  a * (1 - t) + b * t.

(** d3-scale, continuous.js: [bimap(domain, range, interpolate)]. *)
Definition bimap (d r : Q * Q) (x : Q) : Q :=
  let '(d0, d1) := d in
  let '(r0, r1) := r in
  if QMicromega.Qlt_bool d1 d0
  then interpolateNumber r1 r0 (normalize d1 d0 x)
  else interpolateNumber r0 r1 (normalize d0 d1 x).

(** [d3.scaleLinear().domain(d).range(r)]: two-point domain, no clamp. *)
Definition scaleLinear (d r : Q * Q) (x : Q) : Q := bimap d r x.

Definition collab_counts (ns : list node) : list Q :=
  map (fun d => inject_Z (node_collab_count d)) ns.

Definition weights (ls : list link) : list Q :=
  map (fun d => link_weight d) ls.

Definition maxCollab (ns : list node) : Q := or_one (d3_max (collab_counts ns)).

Definition nodeRadius (ns : list node) : Q -> Q :=
  scaleLinear (0, maxCollab ns) (6, 22).

Definition maxWeight (ls : list link) : Q := or_one (d3_max (weights ls)).

Definition linkWidth (ls : list link) : Q -> Q :=
  scaleLinear (1, maxWeight ls) (1.5, 6).

End Scales.

(** ** The page: DOM, scene and simulation *)

(** An SVG [circle] of a node group. *)
Record circle : Type := {
  c_r : Q;
  c_fill : jsval;
  c_fill_opacity : option Q;
  c_stroke : jsval;
  c_stroke_width : Q;
  c_stroke_opacity : option Q;
  c_cursor : option string
}.

(** The first-name label under a node. *)
Record label : Type := {
  t_text : string;
  t_dy : Q;
  t_anchor : string;
  t_fill : string;
  t_font_size : string;
  t_pointer_events : string
}.

(** A [g.node-g]: its children in document order are the glow ring
    (so the ring is [circle:nth-child(1)]), the main circle, the label. *)
Record node_g : Type := {
  g_datum : node;
  g_opacity : option Q;
  g_ring : circle;
  g_body : circle;
  g_label : label
}.

(** A [line] of the link layer.  [l_stroke_alpha] is the alpha channel
    written inside the [rgba(...)] stroke color. *)
Record line : Type := {
  l_datum : link;
  l_stroke : string;
  l_stroke_alpha : Q;
  l_stroke_width : Q;
  l_stroke_linecap : string;
  l_stroke_opacity : option Q
}.

(** The placeholder [text] of the empty graph. *)
Record placeholder : Type := {
  ph_x : Q;
  ph_y : Q;
  ph_anchor : string;
  ph_fill : string;
  ph_font_size : string;
  ph_text : string
}.

Inductive svg_child : Type :=
| SvgText (t : placeholder)
| SvgScene (linkGroup : list line) (nodeGroup : list node_g).

Record legend_item : Type := {
  legend_dot : jsval;
  legend_text : option string
}.

Record tooltip_content : Type := {
  tt_name : string;
  tt_archetype : option string;
  tt_department : string;
  tt_capabilities : list string;
  tt_collab_count : Z
}.

Record tooltip_state : Type := {
  tooltip_html : option tooltip_content;
  tooltip_show : bool;
  tooltip_left : option Q;
  tooltip_top : option Q
}.

(** The detail panel; every color in it is the archetype's (the avatar
    background is that color followed by the alpha digits [30]). *)
Record sidebar_content : Type := {
  sb_avatar_background : jsval;
  sb_avatar_border : jsval;
  sb_icon_color : jsval;
  sb_name : string;
  sb_badge_background : jsval;
  sb_badge_text : option string;
  sb_department : string;
  sb_capability_count : Z;
  sb_capabilities : list string;
  sb_collab_color : jsval;
  sb_collab_count : Z;
  sb_profile : node_id
}.

Record sidebar_state : Type := {
  sidebar_open : bool;
  sidebar_html : option sidebar_content
}.

(** A link after [d3.forceLink] replaced its ids by node objects. *)
Record resolved_link : Type := {
  rl_link : link;
  rl_source : node;
  rl_target : node
}.

Inductive force : Type :=
| ForceLink (ls : list resolved_link) (distance : Q)
| ForceManyBody (strength : Q)
| ForceCenter (cx cy : Q)
| ForceCollide (radius : node -> Q).

(** The controls of a [d3.forceSimulation]; forces keep their
    registration order. *)
Record simulation : Type := {
  sim_alpha : Q;
  sim_alphaTarget : Q;
  sim_running : bool;
  sim_forces : list (string * force)
}.

Inductive error : Type :=
| NodeNotFound (i : node_id).

Inductive outcome : Type :=
| Returned
| Thrown (e : error).

Record page : Type := {
  width : Q;
  height : Q;
  svg : list svg_child;
  zoom_scaleExtent : option (Q * Q);
  filterDept_options : list string;
  filterArch_options : list (option string);
  legendBox : list legend_item;
  searchInput_value : string;
  filterDept_value : string;
  filterArch_value : string;
  tooltip : tooltip_state;
  sidebar : sidebar_state;
  sim : option simulation;
  listening : bool;
  console : list (string * error)
}.

(** Field updates, written out. *)
Definition set_svg (v : list svg_child) (p : page) : page :=
  {| width := width p; height := height p; svg := v;
     zoom_scaleExtent := zoom_scaleExtent p;
     filterDept_options := filterDept_options p;
     filterArch_options := filterArch_options p;
     legendBox := legendBox p;
     searchInput_value := searchInput_value p;
     filterDept_value := filterDept_value p;
     filterArch_value := filterArch_value p;
     tooltip := tooltip p; sidebar := sidebar p; sim := sim p;
     listening := listening p; console := console p |}.

Definition set_controls (zm : option (Q * Q)) (ds : list string)
    (ars : list (option string)) (lg : list legend_item) (p : page) : page :=
  {| width := width p; height := height p; svg := svg p;
     zoom_scaleExtent := zm;
     filterDept_options := ds;
     filterArch_options := ars;
     legendBox := lg;
     searchInput_value := searchInput_value p;
     filterDept_value := filterDept_value p;
     filterArch_value := filterArch_value p;
     tooltip := tooltip p; sidebar := sidebar p; sim := sim p;
     listening := listening p; console := console p |}.

Definition set_inputs (s d a : string) (p : page) : page :=
  {| width := width p; height := height p; svg := svg p;
     zoom_scaleExtent := zoom_scaleExtent p;
     filterDept_options := filterDept_options p;
     filterArch_options := filterArch_options p;
     legendBox := legendBox p;
     searchInput_value := s;
     filterDept_value := d;
     filterArch_value := a;
     tooltip := tooltip p; sidebar := sidebar p; sim := sim p;
     listening := listening p; console := console p |}.

Definition set_tooltip (t : tooltip_state) (p : page) : page :=
  {| width := width p; height := height p; svg := svg p;
     zoom_scaleExtent := zoom_scaleExtent p;
     filterDept_options := filterDept_options p;
     filterArch_options := filterArch_options p;
     legendBox := legendBox p;
     searchInput_value := searchInput_value p;
     filterDept_value := filterDept_value p;
     filterArch_value := filterArch_value p;
     tooltip := t; sidebar := sidebar p; sim := sim p;
     listening := listening p; console := console p |}.

Definition set_sidebar (s : sidebar_state) (p : page) : page :=
  {| width := width p; height := height p; svg := svg p;
     zoom_scaleExtent := zoom_scaleExtent p;
     filterDept_options := filterDept_options p;
     filterArch_options := filterArch_options p;
     legendBox := legendBox p;
     searchInput_value := searchInput_value p;
     filterDept_value := filterDept_value p;
     filterArch_value := filterArch_value p;
     tooltip := tooltip p; sidebar := s; sim := sim p;
     listening := listening p; console := console p |}.

Definition set_sim (s : option simulation) (p : page) : page :=
  {| width := width p; height := height p; svg := svg p;
     zoom_scaleExtent := zoom_scaleExtent p;
     filterDept_options := filterDept_options p;
     filterArch_options := filterArch_options p;
     legendBox := legendBox p;
     searchInput_value := searchInput_value p;
     filterDept_value := filterDept_value p;
     filterArch_value := filterArch_value p;
     tooltip := tooltip p; sidebar := sidebar p; sim := s;
     listening := listening p; console := console p |}.

Definition set_size (w h : Q) (p : page) : page :=
  {| width := w; height := h; svg := svg p;
     zoom_scaleExtent := zoom_scaleExtent p;
     filterDept_options := filterDept_options p;
     filterArch_options := filterArch_options p;
     legendBox := legendBox p;
     searchInput_value := searchInput_value p;
     filterDept_value := filterDept_value p;
     filterArch_value := filterArch_value p;
     tooltip := tooltip p; sidebar := sidebar p; sim := sim p;
     listening := listening p; console := console p |}.

Definition set_listening (b : bool) (p : page) : page :=
  {| width := width p; height := height p; svg := svg p;
     zoom_scaleExtent := zoom_scaleExtent p;
     filterDept_options := filterDept_options p;
     filterArch_options := filterArch_options p;
     legendBox := legendBox p;
     searchInput_value := searchInput_value p;
     filterDept_value := filterDept_value p;
     filterArch_value := filterArch_value p;
     tooltip := tooltip p; sidebar := sidebar p; sim := sim p;
     listening := b; console := console p |}.

Definition log_error (msg : string) (e : error) (p : page) : page :=
  {| width := width p; height := height p; svg := svg p;
     zoom_scaleExtent := zoom_scaleExtent p;
     filterDept_options := filterDept_options p;
     filterArch_options := filterArch_options p;
     legendBox := legendBox p;
     searchInput_value := searchInput_value p;
     filterDept_value := filterDept_value p;
     filterArch_value := filterArch_value p;
     tooltip := tooltip p; sidebar := sidebar p; sim := sim p;
     listening := listening p; console := console p ++ [(msg, e)] |}.

(** ** [render] *)

(** [[...new Set(xs)]]: the distinct values, each at its first place. *)
Fixpoint uniq {A : Type} (eqb : A -> A -> bool) (xs : list A) : list A :=
  match xs with
  | [] => []
  | x :: xs' => x :: filter (fun y => negb (eqb x y)) (uniq eqb xs')
  end.

(** [Array.prototype.sort()] with the default order, as an insertion
    sort: strings by code unit, [undefined] last. *)
Fixpoint sort_insert {A : Type} (leb : A -> A -> bool) (x : A) (xs : list A)
  : list A :=
  match xs with
  | [] => [x]
  | y :: xs' => if leb x y then x :: xs else y :: sort_insert leb x xs'
  end.

Definition js_sort {A : Type} (leb : A -> A -> bool) (xs : list A) : list A :=
  fold_right (sort_insert leb) [] xs.

Definition archetype_eqb (a b : option string) : bool :=
  match a, b with
  | Some s, Some t => String.eqb s t
  | None, None => true
  | _, _ => false
  end.

Definition archetype_leb (a b : option string) : bool :=
  match a, b with
  | Some s, Some t => String.leb s t
  | _, None => true
  | None, Some _ => false
  end.

(** d3-force, link.js: the [Map] from id to node (a later node with the
    same id wins) and [find], which throws on an unknown id. *)
Definition nodeById (ns : list node) (i : node_id) : option node :=
  List.find (fun d => node_id_eqb (node_id_of d) i) (rev ns).

Definition find_node (ns : list node) (i : node_id) : error + node :=
  match nodeById ns i with
  | Some d => inr d
  | None => inl (NodeNotFound i)
  end.

(** d3-force, link.js: [initialize], run when the link force is added to
    the simulation; links in order, source before target. *)
Fixpoint forceLink_initialize (ns : list node) (ls : list link)
  : error + list resolved_link :=
  match ls with
  | [] => inr []
  | l :: ls' =>
      match find_node ns (link_source l) with
      | inl e => inl e
      | inr s =>
          match find_node ns (link_target l) with
          | inl e => inl e
          | inr t =>
              match forceLink_initialize ns ls' with
              | inl e => inl e
              | inr rs =>
                  inr ({| rl_link := l; rl_source := s; rl_target := t |} :: rs)
              end
          end
      end
  end.

Section Render.
Local Open Scope Q_scope.

Definition empty_placeholder (p : page) : placeholder :=
  {| ph_x := width p / 2;
     ph_y := height p / 2;
     ph_anchor := "middle";
     ph_fill := "rgba(0,0,0,.3)";
     ph_font_size := "1.2rem";
     ph_text := "No users found. The network is empty." |}.

Definition draw_line (ls : list link) (d : link) : line :=
  {| l_datum := d;
     l_stroke := "rgba(13, 148, 136, .35)";
     l_stroke_alpha := 0.35;
     l_stroke_width := linkWidth ls (link_weight d);
     l_stroke_linecap := "round";
     l_stroke_opacity := None |}.

Definition draw_ring (ns : list node) (d : node) : circle :=
  {| c_r := nodeRadius ns (inject_Z (node_collab_count d)) + 3;
     c_fill := JString "none";
     c_fill_opacity := None;
     c_stroke := archetypeColor (node_archetype d);
     c_stroke_width := 2;
     c_stroke_opacity := Some 0.3;
     c_cursor := None |}.

Definition draw_body (ns : list node) (d : node) : circle :=
  {| c_r := nodeRadius ns (inject_Z (node_collab_count d));
     c_fill := archetypeColor (node_archetype d);
     c_fill_opacity := Some 0.85;
     c_stroke := JString "#e2e8f0";
     c_stroke_width := 2;
     c_stroke_opacity := None;
     c_cursor := Some "pointer" |}.

Definition draw_label (ns : list node) (d : node) : label :=
  {| t_text := first_token (node_name d);
     t_dy := nodeRadius ns (inject_Z (node_collab_count d)) + 14;
     t_anchor := "middle";
     t_fill := "rgba(0,0,0,.5)";
     t_font_size := "10px";
     t_pointer_events := "none" |}.

Definition draw_node (ns : list node) (d : node) : node_g :=
  {| g_datum := d;
     g_opacity := None;
     g_ring := draw_ring ns d;
     g_body := draw_body ns d;
     g_label := draw_label ns d |}.

Definition legend_entry (a : option string) : legend_item :=
  {| legend_dot := archetypeColor a; legend_text := a |}.

(** [d3.forceSimulation(nodes)]: running, hot, no force yet. *)
Definition forceSimulation : simulation :=
  {| sim_alpha := 1; sim_alphaTarget := 0; sim_running := true;
     sim_forces := [] |}.

Definition with_forces (fs : list (string * force)) (s : simulation)
  : simulation :=
  {| sim_alpha := sim_alpha s; sim_alphaTarget := sim_alphaTarget s;
     sim_running := sim_running s; sim_forces := fs |}.

(** [render(data)] on the page [p]; the second component tells whether
    it returned or threw. *)
Definition render (data : graph) (p : page) : page * outcome :=
  let ns := nodes data in
  let ls := links data in
  match ns with
  | [] => (set_svg (svg p ++ [SvgText (empty_placeholder p)]) p, Returned)
  | _ :: _ =>
      let departments :=
        js_sort String.leb (uniq String.eqb (map node_department ns)) in
      let archetypes :=
        js_sort archetype_leb (uniq archetype_eqb (map node_archetype ns)) in
      let p1 :=
        set_controls (Some (0.2, 5))
          (filterDept_options p ++ departments)
          (filterArch_options p ++ archetypes)
          (legendBox p ++ map legend_entry archetypes) p in
      match forceLink_initialize ns ls with
      | inl e =>
          (set_sim (Some forceSimulation)
             (set_svg (svg p1 ++ [SvgScene [] []]) p1), Thrown e)
      | inr rls =>
          let simulation :=
            with_forces
              [ ("link", ForceLink rls 100);
                ("charge", ForceManyBody (-200));
                ("center", ForceCenter (width p / 2) (height p / 2));
                ("collision",
                  ForceCollide (fun d =>
                    nodeRadius ns (inject_Z (node_collab_count d)) + 4)) ]
              forceSimulation in
          let link := map (draw_line ls) ls in
          let node := map (draw_node ns) ns in
          (set_listening true
             (set_sim (Some simulation)
                (set_svg (svg p1 ++ [SvgScene link node]) p1)), Returned)
      end
  end.

(** The promise chain around [render]: a rejection is logged. *)
Definition on_data (data : graph) (p : page) : page :=
  match render data p with
  | (p', Returned) => p'
  | (p', Thrown e) => log_error "Graph data fetch failed:" e p'
  end.

End Render.

(** ** Search and filter *)

Section Filters.
Local Open Scope Q_scope.

Definition set_ring_style (so sw : Q) (c : circle) : circle :=
  {| c_r := c_r c; c_fill := c_fill c; c_fill_opacity := c_fill_opacity c;
     c_stroke := c_stroke c; c_stroke_width := sw;
     c_stroke_opacity := Some so; c_cursor := c_cursor c |}.

Definition matchSearch (searchTerm : string) (d : node) : bool :=
  negb (truthy_string searchTerm)
  || includes (toLowerCase (node_name d)) searchTerm.

Definition matchDept (dept : string) (d : node) : bool :=
  negb (truthy_string dept) || String.eqb (node_department d) dept.

Definition matchArch (arch : string) (d : node) : bool :=
  negb (truthy_string arch)
  || match node_archetype d with
     | Some a => String.eqb a arch
     | None => false
     end.

Definition visible (searchTerm dept arch : string) (d : node) : bool :=
  matchSearch searchTerm d && matchDept dept d && matchArch arch d.

Definition highlighted (searchTerm : string) (d : node) : bool :=
  truthy_string searchTerm
  && includes (toLowerCase (node_name d)) searchTerm.

(** The body of [node.each(...)]; a transition is recorded by the value
    it ends on. *)
Definition applyFilters_node (searchTerm dept arch : string) (g : node_g)
  : node_g :=
  let d := g_datum g in
  {| g_datum := d;
     g_opacity := Some (if visible searchTerm dept arch d then 1 else 0.08);
     g_ring :=
       if highlighted searchTerm d
       then set_ring_style 1 4 (g_ring g)
       else set_ring_style 0.3 2 (g_ring g);
     g_body := g_body g;
     g_label := g_label g |}.

Definition applyFilters_link (l : line) : line :=
  {| l_datum := l_datum l; l_stroke := l_stroke l;
     l_stroke_alpha := l_stroke_alpha l;
     l_stroke_width := l_stroke_width l;
     l_stroke_linecap := l_stroke_linecap l;
     l_stroke_opacity := Some 0.25 |}.

Definition applyFilters_child (searchTerm dept arch : string) (c : svg_child)
  : svg_child :=
  match c with
  | SvgText t => SvgText t
  | SvgScene link node =>
      SvgScene (map applyFilters_link link)
        (map (applyFilters_node searchTerm dept arch) node)
  end.

Definition applyFilters (p : page) : page :=
  let searchTerm := toLowerCase (searchInput_value p) in
  let dept := filterDept_value p in
  let arch := filterArch_value p in
  set_svg (map (applyFilters_child searchTerm dept arch) (svg p)) p.

(** What a line shows: the alpha of its stroke color times its
    [stroke-opacity], which is 1 while the attribute is absent. *)
Definition line_opacity (l : line) : Q :=
  l_stroke_alpha l * match l_stroke_opacity l with Some o => o | None => 1 end.

End Filters.

(** ** Tooltip, detail panel, resize *)

Section Pointer.
Local Open Scope Q_scope.

(** The [mousemove] handler: where the tooltip's top-left corner goes,
    in the wrapper's coordinates. *)
Definition tooltip_position (clientX clientY rect_left rect_top w h : Q)
  : Q * Q :=
  let x := clientX - rect_left + 16 in
  let y := clientY - rect_top + 16 in
  let x := if QMicromega.Qlt_bool w (x + 200) then x - 220 else x in
  let y := if QMicromega.Qlt_bool h (y + 180) then y - 200 else y in
  (x, y).

Definition tooltip_for (d : node) : tooltip_content :=
  {| tt_name := node_name d;
     tt_archetype := node_archetype d;
     tt_department := node_department d;
     tt_capabilities := firstn 3 (node_capabilities d);
     tt_collab_count := node_collab_count d |}.

Definition sidebar_for (d : node) : sidebar_content :=
  {| sb_avatar_background := archetypeColor (node_archetype d);
     sb_avatar_border := archetypeColor (node_archetype d);
     sb_icon_color := archetypeColor (node_archetype d);
     sb_name := node_name d;
     sb_badge_background := archetypeColor (node_archetype d);
     sb_badge_text := node_archetype d;
     sb_department := node_department d;
     sb_capability_count := node_capability_count d;
     sb_capabilities := node_capabilities d;
     sb_collab_color := archetypeColor (node_archetype d);
     sb_collab_count := node_collab_count d;
     sb_profile := node_id_of d |}.

Definition mouseenter (d : node) (p : page) : page :=
  set_tooltip
    {| tooltip_html := Some (tooltip_for d); tooltip_show := true;
       tooltip_left := tooltip_left (tooltip p);
       tooltip_top := tooltip_top (tooltip p) |} p.

Definition mousemove (clientX clientY rect_left rect_top : Q) (p : page)
  : page :=
  let '(x, y) :=
    tooltip_position clientX clientY rect_left rect_top (width p) (height p) in
  set_tooltip
    {| tooltip_html := tooltip_html (tooltip p);
       tooltip_show := tooltip_show (tooltip p);
       tooltip_left := Some x; tooltip_top := Some y |} p.

Definition mouseleave (p : page) : page :=
  set_tooltip
    {| tooltip_html := tooltip_html (tooltip p); tooltip_show := false;
       tooltip_left := tooltip_left (tooltip p);
       tooltip_top := tooltip_top (tooltip p) |} p.

Definition node_click (d : node) (p : page) : page :=
  set_sidebar {| sidebar_open := true; sidebar_html := Some (sidebar_for d) |} p.

Definition close_sidebar (p : page) : page :=
  set_sidebar
    {| sidebar_open := false; sidebar_html := sidebar_html (sidebar p) |} p.

(** [simulation.force(name, f)]: a registered name keeps its place. *)
Fixpoint set_force (name : string) (f : force) (fs : list (string * force))
  : list (string * force) :=
  match fs with
  | [] => [(name, f)]
  | (n, g) :: fs' =>
      if String.eqb n name then (n, f) :: fs' else (n, g) :: set_force name f fs'
  end.

Definition resize (clientWidth clientHeight : Q) (p : page) : page :=
  let p' := set_size clientWidth clientHeight p in
  match sim p' with
  | None => p'
  | Some s =>
      set_sim
        (Some {| sim_alpha := 0.3;
                 sim_alphaTarget := sim_alphaTarget s;
                 sim_running := true;
                 sim_forces :=
                   set_force "center"
                     (ForceCenter (clientWidth / 2) (clientHeight / 2))
                     (sim_forces s) |}) p'
  end.

End Pointer.

(** ** Drag *)

Section Drag.
Local Open Scope Q_scope.

(** The fields the simulation owns on a node object; [fx]/[fy] are
    [None] for [null] or absent. *)
Record body : Type := {
  x : Q; y : Q;
  vx : Q; vy : Q;
  fx : option Q; fy : option Q
}.

Definition pin (px py : option Q) (d : body) : body :=
  {| x := x d; y := y d; vx := vx d; vy := vy d; fx := px; fy := py |}.

Definition alphaTarget (a : Q) (s : simulation) : simulation :=
  {| sim_alpha := sim_alpha s; sim_alphaTarget := a;
     sim_running := sim_running s; sim_forces := sim_forces s |}.

Definition restart (s : simulation) : simulation :=
  {| sim_alpha := sim_alpha s; sim_alphaTarget := sim_alphaTarget s;
     sim_running := true; sim_forces := sim_forces s |}.

(** [event.active] is the number of other drag gestures in progress. *)
Definition dragStarted (active : nat) (s : simulation) (d : body)
  : simulation * body :=
  let s' := if Nat.eqb active 0 then restart (alphaTarget 0.3 s) else s in
  (s', pin (Some (x d)) (Some (y d)) d).

Definition dragged (event_x event_y : Q) (s : simulation) (d : body)
  : simulation * body :=
  (s, pin (Some event_x) (Some event_y) d).

Definition dragEnded (active : nat) (s : simulation) (d : body)
  : simulation * body :=
  let s' := if Nat.eqb active 0 then alphaTarget 0 s else s in
  (s', pin None None d).

(** d3-force, simulation.js: what one tick does to a node once the
    forces have added [(dvx, dvy)] to its velocity. *)
Definition tick_body (dvx dvy : Q) (d : body) : body :=
  let vx1 := vx d + dvx in
  let vy1 := vy d + dvy in
  let '(x', vx') :=
    match fx d with
    | None => (x d + vx1 * 0.6, vx1 * 0.6)
    | Some f => (f, 0)
    end in
  let '(y', vy') :=
    match fy d with
    | None => (y d + vy1 * 0.6, vy1 * 0.6)
    | Some f => (f, 0)
    end in
  {| x := x'; y := y'; vx := vx'; vy := vy'; fx := fx d; fy := fy d |}.

(** What can happen to a node and the simulation between the start and
    the end of a drag of that node. *)
Inductive drag_move : Type :=
| Drag (event_x event_y : Q)
| Tick (dvx dvy : Q).

Definition drag_step (m : drag_move) (st : simulation * body)
  : simulation * body :=
  match m with
  | Drag ex ey => dragged ex ey (fst st) (snd st)
  | Tick dvx dvy => (fst st, tick_body dvx dvy (snd st))
  end.

(** A whole gesture: start, the moves in order, end. *)
Definition gesture (active_at_start : nat) (moves : list drag_move)
    (active_at_end : nat) (st : simulation * body) : simulation * body :=
  let st1 := dragStarted active_at_start (fst st) (snd st) in
  let st2 := fold_left (fun acc m => drag_step m acc) moves st1 in
  dragEnded active_at_end (fst st2) (snd st2).

End Drag.

(** ** Events of a rendered page *)

Inductive event : Type :=
| SearchInput (value : string)
| FilterDeptChange (value : string)
| FilterArchChange (value : string)
| NodeMouseEnter (d : node)
| NodeMouseMove (clientX clientY rect_left rect_top : Q)
| NodeMouseLeave
| NodeClick (d : node)
| CloseSidebarClick
| SvgClick
| WindowResize (clientWidth clientHeight : Q)
| NodeDragStart (active : nat) (d : body)
| NodeDrag (event_x event_y : Q) (d : body)
| NodeDragEnd (active : nat) (d : body)
| SimulationTick.

Definition on_drag (h : simulation -> body -> simulation * body) (d : body)
    (p : page) : page :=
  match sim p with
  | None => p
  | Some s => set_sim (Some (fst (h s d))) p
  end.

(** The handler each event reaches.  A tick writes only line end points
    and group transforms, which the page record does not carry. *)
Definition handle (e : event) (p : page) : page :=
  match e with
  | SearchInput v =>
      applyFilters (set_inputs v (filterDept_value p) (filterArch_value p) p)
  | FilterDeptChange v =>
      applyFilters (set_inputs (searchInput_value p) v (filterArch_value p) p)
  | FilterArchChange v =>
      applyFilters (set_inputs (searchInput_value p) (filterDept_value p) v p)
  | NodeMouseEnter d => mouseenter d p
  | NodeMouseMove cx cy rl rt => mousemove cx cy rl rt p
  | NodeMouseLeave => mouseleave p
  | NodeClick d => node_click d p
  | CloseSidebarClick => close_sidebar p
  | SvgClick => close_sidebar p
  | WindowResize w h => resize w h p
  | NodeDragStart a d => on_drag (dragStarted a) d p
  | NodeDrag ex ey d => on_drag (dragged ex ey) d p
  | NodeDragEnd a d => on_drag (dragEnded a) d p
  | SimulationTick => p
  end.

(** Handlers exist only once [render] has registered them. *)
Definition dispatch (p : page) (e : event) : page :=
  if listening p then handle e p else p.

Definition run (es : list event) (p : page) : page :=
  fold_left dispatch es p.

(** The lines and node groups of a page. *)
Definition lines_of (p : page) : list line :=
  flat_map (fun c => match c with SvgText _ => [] | SvgScene l _ => l end)
    (svg p).

Definition groups_of (p : page) : list node_g :=
  flat_map (fun c => match c with SvgText _ => [] | SvgScene _ n => n end)
    (svg p).

(** A page before the script ran: nothing inside the SVG, the selectors
    hold only their "any" option, nothing is typed or selected. *)
Definition blank_page (w h : Q) : page :=
  {| width := w; height := h; svg := [];
     zoom_scaleExtent := None;
     filterDept_options := [""];
     filterArch_options := [Some ""];
     legendBox := [];
     searchInput_value := "";
     filterDept_value := "";
     filterArch_value := "";
     tooltip := {| tooltip_html := None; tooltip_show := false;
                   tooltip_left := None; tooltip_top := None |};
     sidebar := {| sidebar_open := false; sidebar_html := None |};
     sim := None;
     listening := false;
     console := [] |}.

(** ** The specification's vocabulary *)

(** "Case-insensitive substring": some stretch of [name] equals [term]
    up to the case of its letters.  Two characters are the same letter
    when they are equal or are the capital and the small form of one of
    A-Z, which lie 32 apart. *)
Definition case_pair (up low : ascii) : Prop :=
  (65 <= nat_of_ascii up <= 90)%nat
  /\ nat_of_ascii low = (nat_of_ascii up + 32)%nat.

Definition same_letter (a b : ascii) : Prop :=
  a = b \/ case_pair a b \/ case_pair b a.

Inductive eq_ignoring_case : string -> string -> Prop :=
| eic_empty : eq_ignoring_case "" ""
| eic_char (a b : ascii) (u t : string) :
    same_letter a b -> eq_ignoring_case u t ->
    eq_ignoring_case (String a u) (String b t).

Definition contains_ignoring_case (name term : string) : Prop :=
  exists pre u post, name = pre +:+ u +:+ post /\ eq_ignoring_case u term.

(** A link end that matches the id of no loaded node. *)
Definition unknown_id (ns : list node) (i : node_id) : Prop :=
  forall d, In d ns -> node_id_of d <> i.

Definition malformed (ns : list node) (l : link) : Prop :=
  unknown_id ns (link_source l) \/ unknown_id ns (link_target l).

(** The upper end of the radius domain as section 4.1 words it: the
    largest [collab_count], "or 1 if the graph has at most one distinct
    value". *)
Definition distinct_collab_counts (ns : list node) : nat :=
  length (uniq Qeq_bool (collab_counts ns)).

Definition maxCollab_as_worded (ns : list node) : Q :=
  if (distinct_collab_counts ns <=? 1)%nat then 1%Q
  else match d3_max (collab_counts ns) with
       | Some m => m
       | None => 1%Q
       end.

(** [m] is the largest of [vs]. *)
Definition is_max (vs : list Q) (m : Q) : Prop :=
  In m vs /\ forall v, In v vs -> (v <= m)%Q.

(** The graph of section 8 of the specification. *)
Definition ada : node :=
  {| node_id_of := IdNum 1; node_name := "Ada Lovelace";
     node_department := "Engineering"; node_archetype := Some "Builder";
     node_capabilities := ["Analysis"; "Engines"]; node_capability_count := 2;
     node_collab_count := 5 |}.

Definition alan : node :=
  {| node_id_of := IdNum 2; node_name := "Alan Turing";
     node_department := "Research"; node_archetype := Some "Researcher";
     node_capabilities := []; node_capability_count := 0;
     node_collab_count := 0 |}.

Definition ada_alan : link :=
  {| link_source := IdNum 1; link_target := IdNum 2; link_weight := 2 |}.

Definition example_graph : graph :=
  {| nodes := [ada; alan]; links := [ada_alan] |}.

(** The node whose archetype is the string [constructor]. *)
Definition odd_node : node :=
  {| node_id_of := IdNum 7; node_name := "Grace Hopper";
     node_department := "Engineering"; node_archetype := Some "constructor";
     node_capabilities := []; node_capability_count := 0;
     node_collab_count := 1 |}.

Definition odd_page : page :=
  fst (render {| nodes := [odd_node]; links := [] |} (blank_page 800 600)).

(** A node is pinned while both [fx] and [fy] hold a number. *)
Definition pinned (d : body) : Prop :=
  (exists px, fx d = Some px) /\ (exists py, fy d = Some py).

(** The events whose handler is [applyFilters]. *)
Definition filter_event (e : event) : bool :=
  match e with
  | SearchInput _ | FilterDeptChange _ | FilterArchChange _ => true
  | _ => false
  end.

(** Every line carries the stroke-opacity [applyFilters] writes. *)
Definition dimmed (p : page) : Prop :=
  forall l, In l (lines_of p) -> l_stroke_opacity l = Some 0.25%Q.

(** Every line still has the stroke color [render] gave it. *)
Definition teal (p : page) : Prop :=
  forall l, In l (lines_of p) -> l_stroke_alpha l = 0.35%Q.

(** A graph of one node whose only link points at a node that was not
    loaded. *)
Definition dangling_graph : graph :=
  {| nodes := [ada]; links := [ada_alan] |}.

(** ** Concurrent drag gestures *)

(** d3-drag counts the gestures in progress and hands the count to the
    listeners as [event.active]: at "start" the count before the new
    gesture, at "end" the count after the ended one.  An "end" comes
    only for a gesture that started. *)
Inductive pointer_event : Type :=
| PointerDown (d : body)
| PointerUp (d : body).

Definition drag_dispatch (st : nat * simulation) (e : pointer_event)
  : nat * simulation :=
  match e with
  | PointerDown d => (S (fst st), fst (dragStarted (fst st) (snd st) d))
  | PointerUp d =>
      match fst st with
      | O => st
      | S n => (n, fst (dragEnded n (snd st) d))
      end
  end.

Definition drag_run (es : list pointer_event) (st : nat * simulation)
  : nat * simulation :=
  fold_left drag_dispatch es st.

(** What every handler leaves alone in a node group: the datum, the
    main circle, the label, and the ring's radius, fill and color. *)
Definition group_shape (gr : node_g)
  : node * circle * label * (Q * jsval * jsval) :=
  (g_datum gr, g_body gr, g_label gr,
   (c_r (g_ring gr), c_fill (g_ring gr), c_stroke (g_ring gr))).

(** What every handler leaves alone in a line. *)
Definition line_shape (l : line) : link * string * Q * Q * string :=
  (l_datum l, l_stroke l, l_stroke_alpha l, l_stroke_width l,
   l_stroke_linecap l).

(** The forces of the simulation of a page, if it has one. *)
Definition forces_of (p : page) : list (string * force) :=
  match sim p with
  | Some s => sim_forces s
  | None => []
  end.

(** The links the link force holds. *)
Definition resolved_links_of (p : page) : list resolved_link :=
  flat_map (fun nf => match snd nf with ForceLink rls _ => rls | _ => [] end)
    (forces_of p).

(** The events whose handler writes the detail panel. *)
Definition panel_event (e : event) : bool :=
  match e with
  | NodeClick _ | CloseSidebarClick | SvgClick => true
  | _ => false
  end.

(** The events whose handler writes the tooltip's content or shows or
    hides it. *)
Definition hover_event (e : event) : bool :=
  match e with
  | NodeMouseEnter _ | NodeMouseLeave => true
  | _ => false
  end.

(** ** The base script: alerts that dismiss themselves

    [DOMContentLoaded] logs a line and gives every
    [.alert-dismissible] element then in the document a timer of 5000
    ms that closes it.  The document is its alerts in document order, the
    pending timers (due time and position of the alert they close), a
    clock in milliseconds and the console. *)

(** An alert; [alert_open] tells whether it is still in the document. *)
Record alert : Type := {
  alert_dismissible : bool;
  alert_open : bool
}.

Record document : Type := {
  doc_alerts : list alert;
  doc_timers : list (nat * nat);
  doc_now : nat;
  doc_console : list string
}.

(** [bsAlert.close()]: the alert leaves the document. *)
Definition close_alert (a : alert) : alert :=
  {| alert_dismissible := alert_dismissible a; alert_open := false |}.

Fixpoint close_at (i : nat) (al : list alert) : list alert :=
  match al, i with
  | [], _ => []
  | a :: al', O => close_alert a :: al'
  | a :: al', S j => a :: close_at j al'
  end.

(** [querySelectorAll(".alert-dismissible").forEach(...)]: one timer
    per matching element, in document order; [i] is the position of the
    first element of [al]. *)
Fixpoint dismiss_timers (due i : nat) (al : list alert) : list (nat * nat) :=
  match al with
  | [] => []
  | a :: al' =>
      if alert_dismissible a && alert_open a
      then (due, i) :: dismiss_timers due (S i) al'
      else dismiss_timers due (S i) al'
  end.

Definition onDOMContentLoaded (doc : document) : document :=
  {| doc_alerts := doc_alerts doc;
     doc_timers :=
       (doc_timers doc
        ++ dismiss_timers (doc_now doc + 5000) 0 (doc_alerts doc))%list;
     doc_now := doc_now doc;
     doc_console := (doc_console doc ++ ["N.E.S.T loaded ✓"])%list |}.

(** An alert the page shows later. *)
Definition show_alert (a : alert) (doc : document) : document :=
  {| doc_alerts := (doc_alerts doc ++ [a])%list;
     doc_timers := doc_timers doc;
     doc_now := doc_now doc;
     doc_console := doc_console doc |}.

(** [t] milliseconds pass: the timers that are due fire, in order. *)
Definition advance (t : nat) (doc : document) : document :=
  let now := (doc_now doc + t)%nat in
  {| doc_alerts :=
       fold_left (fun al tm => close_at (snd tm) al)
         (List.filter (fun tm => (fst tm <=? now)%nat) (doc_timers doc))
         (doc_alerts doc);
     doc_timers :=
       List.filter (fun tm => negb (fst tm <=? now)%nat) (doc_timers doc);
     doc_now := now;
     doc_console := doc_console doc |}.

(** What the timer of an alert does to it once it fired. *)
Definition dismissed (a : alert) : alert :=
  if alert_dismissible a && alert_open a then close_alert a else a.

(** A page with a flash message that can be dismissed and a banner that
    cannot. *)
Definition example_document : document :=
  {| doc_alerts := [ {| alert_dismissible := true; alert_open := true |};
                     {| alert_dismissible := false; alert_open := true |} ];
     doc_timers := []; doc_now := 0; doc_console := [] |}.

(** * Properties *)

(** ** Strings *)

Lemma truthy_string_false (s : string) : truthy_string s = false <-> s = "".
Proof. destruct s; simpl; split; congruence. Qed.

Lemma truthy_string_true (s : string) : truthy_string s = true <-> s <> "".
Proof. destruct s; simpl; split; congruence. Qed.

Lemma toLowerCase_empty (s : string) : toLowerCase s = "" <-> s = "".
Proof. destruct s; simpl; split; congruence. Qed.

Lemma toLowerCase_app (a b : string) :
  toLowerCase (a +:+ b) = toLowerCase a +:+ toLowerCase b.
Proof. induction a as [|c a IH]; simpl; [reflexivity | now rewrite IH]. Qed.

(** A split of the folded string comes from a split of the string. *)
Lemma toLowerCase_split (s a b : string) :
  toLowerCase s = a +:+ b ->
  exists s1 s2, s = s1 +:+ s2 /\ toLowerCase s1 = a /\ toLowerCase s2 = b.
Proof.
  revert s. induction a as [|c a IH]; intros s H.
  - exists "", s. simpl in *. auto.
  - destruct s as [|c' s]; simpl in H; [discriminate|].
    injection H as Hc Hs.
    destruct (IH s Hs) as (s1 & s2 & -> & H1 & H2).
    exists (String c' s1), s2. simpl. rewrite Hc, H1. auto.
Qed.

Lemma startsWith_spec (s t : string) :
  startsWith s t = true <-> exists post, s = t +:+ post.
Proof.
  revert s. induction t as [|b t IH]; intros s; simpl.
  - split; [intros _; now exists s | reflexivity].
  - destruct s as [|a s].
    + split; [discriminate | intros [post H]; discriminate].
    + rewrite andb_true_iff, IH. split.
      * intros [Hab [post ->]]. apply Ascii.eqb_eq in Hab. subst.
        now exists post.
      * intros [post H]. injection H as -> ->. split.
        -- apply Ascii.eqb_refl.
        -- now exists post.
Qed.

Lemma includes_spec (s t : string) :
  includes s t = true <-> exists pre post, s = pre +:+ t +:+ post.
Proof.
  induction s as [|a s IH].
  - simpl. rewrite orb_false_r, startsWith_spec. split.
    + intros [post H]. now exists "", post.
    + intros (pre & post & H). destruct pre; [now exists post | discriminate].
  - cbn [includes]. rewrite orb_true_iff, startsWith_spec, IH. split.
    + intros [[post H] | (pre & post & H)].
      * now exists "", post.
      * exists (String a pre), post. simpl. now rewrite H.
    + intros (pre & post & H). destruct pre as [|c pre].
      * left. now exists post.
      * right. simpl in H. injection H as _ H. now exists pre, post.
Qed.

Lemma nat_of_ascii_inj (a b : ascii) :
  nat_of_ascii a = nat_of_ascii b -> a = b.
Proof.
  intros H. rewrite <- (ascii_nat_embedding a), <- (ascii_nat_embedding b).
  now rewrite H.
Qed.

Lemma isUpper_spec (c : ascii) :
  isUpper c = true <-> (65 <= nat_of_ascii c <= 90)%nat.
Proof.
  unfold isUpper. cbv zeta.
  rewrite andb_true_iff, !Nat.leb_le. reflexivity.
Qed.

Lemma nat_of_lower_ascii (c : ascii) :
  nat_of_ascii (lower_ascii c)
  = if isUpper c then (nat_of_ascii c + 32)%nat else nat_of_ascii c.
Proof.
  unfold lower_ascii. destruct (isUpper c) eqn:E; [|reflexivity].
  apply isUpper_spec in E. apply nat_ascii_embedding. lia.
Qed.

(** Two characters fold to the same character exactly when they are
    the same letter. *)
Lemma lower_ascii_eq_iff (a b : ascii) :
  lower_ascii a = lower_ascii b <-> same_letter a b.
Proof.
  unfold same_letter, case_pair. split.
  - intros H. apply (f_equal nat_of_ascii) in H.
    rewrite !nat_of_lower_ascii in H.
    destruct (isUpper a) eqn:Ea, (isUpper b) eqn:Eb.
    + left. apply nat_of_ascii_inj. lia.
    + right. left. apply isUpper_spec in Ea. lia.
    + right. right. apply isUpper_spec in Eb. lia.
    + left. now apply nat_of_ascii_inj.
  - intros H. apply nat_of_ascii_inj. rewrite !nat_of_lower_ascii.
    destruct (isUpper a) eqn:Ea, (isUpper b) eqn:Eb;
      try (apply isUpper_spec in Ea); try (apply isUpper_spec in Eb);
      try (assert (~ (65 <= nat_of_ascii a <= 90)%nat) as Na
             by (rewrite <- isUpper_spec; congruence));
      try (assert (~ (65 <= nat_of_ascii b <= 90)%nat) as Nb
             by (rewrite <- isUpper_spec; congruence));
      destruct H as [->|[[? ?]|[? ?]]]; lia.
Qed.

Lemma toLowerCase_eq_iff (u t : string) :
  toLowerCase u = toLowerCase t <-> eq_ignoring_case u t.
Proof.
  split.
  - revert t. induction u as [|a u IH]; intros [|b t] H; cbn in H;
      try discriminate.
    + constructor.
    + injection H as Hc Hs. constructor; [now apply lower_ascii_eq_iff | auto].
  - induction 1 as [|a b u t Hab _ IH]; cbn; [reflexivity|].
    f_equal; [now apply lower_ascii_eq_iff | exact IH].
Qed.

(** The script's test, on folded strings, is the specification's
    case-insensitive containment. *)
Lemma includes_toLowerCase (name term : string) :
  includes (toLowerCase name) (toLowerCase term) = true
  <-> contains_ignoring_case name term.
Proof.
  rewrite includes_spec. split.
  - intros (pre & post & H).
    destruct (toLowerCase_split _ _ _ H) as (s1 & s2 & -> & H1 & H2).
    destruct (toLowerCase_split _ _ _ H2) as (u & s3 & -> & Hu & H3).
    exists s1, u, s3. split; [reflexivity | now apply toLowerCase_eq_iff].
  - intros (pre & u & post & -> & Hu). apply toLowerCase_eq_iff in Hu.
    exists (toLowerCase pre), (toLowerCase post).
    now rewrite !toLowerCase_app, Hu.
Qed.

Lemma string_eqb_true (s t : string) : String.eqb s t = true <-> s = t.
Proof. apply String.eqb_eq. Qed.

(** ** Search and filter *)

Lemma groups_of_applyFilters (p : page) :
  groups_of (applyFilters p)
  = map (applyFilters_node (toLowerCase (searchInput_value p))
           (filterDept_value p) (filterArch_value p)) (groups_of p).
Proof.
  unfold applyFilters, groups_of. simpl.
  induction (svg p) as [|c cs IH]; simpl; [reflexivity|].
  rewrite IH, map_app. now destruct c.
Qed.

Lemma lines_of_applyFilters (p : page) :
  lines_of (applyFilters p) = map applyFilters_link (lines_of p).
Proof.
  unfold applyFilters, lines_of. simpl.
  induction (svg p) as [|c cs IH]; simpl; [reflexivity|].
  rewrite IH, map_app. now destruct c.
Qed.

Lemma matchSearch_spec (search : string) (d : node) :
  matchSearch (toLowerCase search) d = true
  <-> search = "" \/ contains_ignoring_case (node_name d) search.
Proof.
  unfold matchSearch.
  rewrite orb_true_iff, negb_true_iff, truthy_string_false,
    toLowerCase_empty, includes_toLowerCase.
  reflexivity.
Qed.

Lemma matchDept_spec (dept : string) (d : node) :
  matchDept dept d = true <-> dept = "" \/ node_department d = dept.
Proof.
  unfold matchDept.
  rewrite orb_true_iff, negb_true_iff, truthy_string_false, string_eqb_true.
  reflexivity.
Qed.

Lemma matchArch_spec (arch : string) (d : node) :
  matchArch arch d = true <-> arch = "" \/ node_archetype d = Some arch.
Proof.
  unfold matchArch.
  rewrite orb_true_iff, negb_true_iff, truthy_string_false.
  destruct (node_archetype d) as [a|].
  - rewrite string_eqb_true. split; (intros [H|H]; [now left | right]);
      congruence.
  - split; (intros [H|H]; [now left | discriminate]).
Qed.

Lemma highlighted_spec (search : string) (d : node) :
  highlighted (toLowerCase search) d = true
  <-> search <> "" /\ contains_ignoring_case (node_name d) search.
Proof.
  unfold highlighted.
  rewrite andb_true_iff, truthy_string_true, toLowerCase_empty,
    includes_toLowerCase.
  reflexivity.
Qed.

(** C1.  Whatever is typed and selected, [applyFilters] gives every node
    group the opacity 1 when the node is visible and 0.08 when it is not,
    and a node is visible exactly when all three hold: the search field
    is empty or the name contains it up to letter case; no department is
    selected or it is the node's; no archetype is selected or it is the
    node's. *)
Theorem applyFilters_visibility :
  (forall p : page,
     groups_of (applyFilters p)
     = map (applyFilters_node (toLowerCase (searchInput_value p))
              (filterDept_value p) (filterArch_value p)) (groups_of p))
  /\
  (forall (search dept arch : string) (g : node_g),
     let d := g_datum g in
     let g' := applyFilters_node (toLowerCase search) dept arch g in
     let vis := visible (toLowerCase search) dept arch d in
     (vis = true <->
        (search = "" \/ contains_ignoring_case (node_name d) search)
        /\ (dept = "" \/ node_department d = dept)
        /\ (arch = "" \/ node_archetype d = Some arch))
     /\ (g_opacity g' = Some 1%Q <-> vis = true)
     /\ (g_opacity g' = Some 0.08%Q <-> vis = false)).
Proof.
  split; [exact groups_of_applyFilters|].
  intros search dept arch g d g' vis. split; [|split].
  - unfold vis, visible.
    rewrite !andb_true_iff, matchSearch_spec, matchDept_spec, matchArch_spec.
    tauto.
  - unfold g'. simpl. fold d. fold vis.
    destruct vis; split; intros H; try reflexivity; try discriminate.
  - unfold g'. simpl. fold d. fold vis.
    destruct vis; split; intros H; try reflexivity; try discriminate.
Qed.

(** C2.  After [applyFilters] the glow ring of a node has stroke-opacity
    1 and stroke-width 4 exactly when the search field is not empty and
    the node's name contains it up to letter case; otherwise it has the
    baseline 0.3 and 2, in particular for every node when the field is
    empty.  The department and archetype selections play no part. *)
Theorem applyFilters_highlight :
  forall (search dept arch : string) (g : node_g),
    let d := g_datum g in
    let ring' := g_ring (applyFilters_node (toLowerCase search) dept arch g) in
    ((c_stroke_opacity ring' = Some 1%Q /\ c_stroke_width ring' = 4%Q)
       <-> (search <> "" /\ contains_ignoring_case (node_name d) search))
    /\ ((c_stroke_opacity ring' = Some 0.3%Q /\ c_stroke_width ring' = 2%Q)
       <-> ~ (search <> "" /\ contains_ignoring_case (node_name d) search))
    /\ (forall dept' arch' : string,
          g_ring (applyFilters_node (toLowerCase search) dept' arch' g)
          = ring')
    /\ c_stroke_opacity
         (g_ring (applyFilters_node (toLowerCase "") dept arch g))
       = Some 0.3%Q
    /\ c_stroke_width
         (g_ring (applyFilters_node (toLowerCase "") dept arch g))
       = 2%Q.
Proof.
  intros search dept arch g d ring'.
  pose proof (highlighted_spec search d) as Hh.
  unfold ring'. simpl. fold d.
  destruct (highlighted (toLowerCase search) d); simpl;
    (split; [|split; [|split; [|split]]]); try reflexivity.
  - split; [intros _; now apply Hh | auto].
  - split; [intros [H _]; discriminate | intros H].
    exfalso. apply H. now apply Hh.
  - split; [intros [H _]; discriminate | intros H].
    apply Hh in H. discriminate.
  - split; [intros _ H | auto]. apply Hh in H. discriminate.
Qed.

(** ** Scales *)

Section ScaleFacts.
Local Open Scope Q_scope.

Lemma Qlt_bool_false (a b : Q) : QMicromega.Qlt_bool a b = false -> b <= a.
Proof.
  intros E. destruct (Qlt_le_dec a b) as [H|H]; [|exact H].
  apply QMicromega.Qlt_bool_iff in H. congruence.
Qed.

Lemma d3_max_from_some (vs : list Q) :
  forall m0 : Q,
    exists r, d3_max_from (Some m0) vs = Some r
              /\ (r = m0 \/ In r vs)
              /\ m0 <= r
              /\ (forall v, In v vs -> v <= r).
Proof.
  induction vs as [|v vs IH]; intros m0; simpl.
  - exists m0. repeat split; auto; [lra | tauto].
  - destruct (QMicromega.Qlt_bool m0 v) eqn:E.
    + apply QMicromega.Qlt_bool_iff in E.
      destruct (IH v) as (r & Hr & Hin & Hle & Hall).
      exists r. repeat split; auto.
      * destruct Hin as [->|Hin]; auto.
      * lra.
      * intros w [<-|Hw]; auto.
    + apply Qlt_bool_false in E.
      destruct (IH m0) as (r & Hr & Hin & Hle & Hall).
      exists r. repeat split; auto.
      * destruct Hin as [->|Hin]; auto.
      * intros w [<-|Hw]; [lra | auto].
Qed.

Lemma d3_max_empty : d3_max [] = None.
Proof. reflexivity. Qed.

(** On at least one value [d3.max] returns the largest of them. *)
Lemma d3_max_cons (v : Q) (vs : list Q) :
  exists r, d3_max (v :: vs) = Some r /\ is_max (v :: vs) r.
Proof.
  unfold d3_max. simpl.
  destruct (d3_max_from_some vs v) as (r & Hr & Hin & Hle & Hall).
  exists r. split; [exact Hr|]. split.
  - destruct Hin as [->|Hin]; [now left | now right].
  - intros w [<-|Hw]; auto.
Qed.

Lemma or_one_nonzero (m : option Q) : ~ or_one m == 0.
Proof.
  destruct m as [v|]; simpl; [|lra].
  destruct (Qeq_bool v 0) eqn:E; [lra|].
  now apply Qeq_bool_neq.
Qed.

(** Off a collapsed domain the scale is the affine map through
    [(d0, r0)] and [(d1, r1)], whichever way the domain runs. *)
Lemma scaleLinear_affine (d0 d1 r0 r1 v : Q) :
  ~ d1 == d0 ->
  scaleLinear (d0, d1) (r0, r1) v == r0 + (r1 - r0) * (v - d0) / (d1 - d0).
Proof.
  intros Hd. unfold scaleLinear, bimap, interpolateNumber, normalize.
  assert (~ d1 - d0 == 0) as H1 by (intros H; apply Hd; lra).
  assert (~ d0 - d1 == 0) as H2 by (intros H; apply Hd; lra).
  destruct (QMicromega.Qlt_bool d1 d0).
  - destruct (Qeq_bool (d0 - d1) 0) eqn:E.
    + apply Qeq_bool_iff in E. contradiction.
    + field. auto.
  - destruct (Qeq_bool (d1 - d0) 0) eqn:E.
    + apply Qeq_bool_iff in E. contradiction.
    + field. auto.
Qed.

(** On a collapsed domain D3 answers the middle of the range. *)
Lemma scaleLinear_collapsed (d0 d1 r0 r1 v : Q) :
  d1 == d0 ->
  scaleLinear (d0, d1) (r0, r1) v == (r0 + r1) / 2.
Proof.
  intros Hd. unfold scaleLinear, bimap, interpolateNumber, normalize.
  destruct (QMicromega.Qlt_bool d1 d0) eqn:L.
  - apply QMicromega.Qlt_bool_iff in L. lra.
  - destruct (Qeq_bool (d1 - d0) 0) eqn:E.
    + field.
    + apply Qeq_bool_neq in E. exfalso. apply E. lra.
Qed.

Lemma scaleLinear_monotone (d0 d1 r0 r1 v w : Q) :
  d0 <= d1 -> r0 <= r1 -> v <= w ->
  scaleLinear (d0, d1) (r0, r1) v <= scaleLinear (d0, d1) (r0, r1) w.
Proof.
  intros Hd Hr Hvw.
  destruct (Qeq_dec d1 d0) as [E|E].
  - rewrite !(scaleLinear_collapsed _ _ _ _ _ E). lra.
  - rewrite !(scaleLinear_affine _ _ _ _ _ E).
    assert (0 < / (d1 - d0)) as Hk by (apply Qinv_lt_0_compat; lra).
    unfold Qdiv. set (k := / (d1 - d0)) in *.
    assert (0 <= (r1 - r0) * (w - v)) as Hp by nra.
    assert (0 <= (r1 - r0) * (w - v) * k) as Hq by nra.
    nra.
Qed.

Lemma maxCollab_cases (ns : list node) :
  ns <> [] ->
  exists mx, is_max (collab_counts ns) mx
             /\ maxCollab ns = if Qeq_bool mx 0 then 1 else mx.
Proof.
  intros Hne. destruct ns as [|d ns]; [congruence|].
  unfold maxCollab, collab_counts. cbn [map].
  destruct (d3_max_cons (inject_Z (node_collab_count d))
              (map (fun d0 => inject_Z (node_collab_count d0)) ns))
    as (r & Hr & Hmax).
  exists r. rewrite Hr. split; [exact Hmax | reflexivity].
Qed.

Lemma maxWeight_cases (ls : list link) :
  (ls = [] /\ maxWeight ls = 1)
  \/ exists mw, is_max (weights ls) mw
                /\ maxWeight ls = if Qeq_bool mw 0 then 1 else mw.
Proof.
  destruct ls as [|l ls]; [left; split; reflexivity | right].
  unfold maxWeight, weights. cbn [map].
  destruct (d3_max_cons (link_weight l) (map (fun d => link_weight d) ls))
    as (r & Hr & Hmax).
  exists r. rewrite Hr. split; [exact Hmax | reflexivity].
Qed.

Lemma maxCollab_nonzero (ns : list node) : ~ maxCollab ns == 0.
Proof. apply or_one_nonzero. Qed.

Lemma nodeRadius_affine (ns : list node) (c : Q) :
  nodeRadius ns c == 6 + 16 * c / maxCollab ns.
Proof.
  unfold nodeRadius.
  rewrite scaleLinear_affine by apply maxCollab_nonzero.
  field. apply maxCollab_nonzero.
Qed.

Lemma In_collab_counts (ns : list node) (q : Q) :
  In q (collab_counts ns)
  -> exists d, In d ns /\ q = inject_Z (node_collab_count d).
Proof.
  unfold collab_counts. rewrite in_map_iff.
  intros (d & <- & Hd). now exists d.
Qed.

(** With the counts the data model allows, the radius domain [0, m]
    runs upward. *)
Lemma maxCollab_positive (ns : list node) :
  collab_counts_ok ns -> 0 < maxCollab ns.
Proof.
  intros Hok. destruct ns as [|d ns]; [reflexivity|].
  destruct (maxCollab_cases (d :: ns)) as (mx & [Hin _] & ->); [congruence|].
  apply In_collab_counts in Hin. destruct Hin as (e & He & ->).
  specialize (Hok e He).
  destruct (Qeq_bool (inject_Z (node_collab_count e)) 0) eqn:E; [reflexivity|].
  apply Qeq_bool_neq in E.
  assert (0 <= inject_Z (node_collab_count e)) as H0.
  { change 0 with (inject_Z 0). now rewrite <- Zle_Qle. }
  lra.
Qed.

(** With the weights the data model allows, the width domain [1, m]
    does not run downward. *)
Lemma maxWeight_ge_1 (ls : list link) : weights_ok ls -> 1 <= maxWeight ls.
Proof.
  intros Hok.
  destruct (maxWeight_cases ls) as [[_ ->] | (mw & [Hin _] & ->)]; [lra|].
  unfold weights in Hin. apply in_map_iff in Hin.
  destruct Hin as (l & <- & Hl). specialize (Hok l Hl).
  destruct (Qeq_bool (link_weight l) 0) eqn:E; [lra | exact Hok].
Qed.

End ScaleFacts.

(** ** Resolving link ends *)

Lemma node_id_eqb_eq (a b : node_id) : node_id_eqb a b = true <-> a = b.
Proof.
  destruct a as [m|s], b as [n|t]; cbn.
  - rewrite Z.eqb_eq. split; congruence.
  - split; discriminate.
  - split; discriminate.
  - rewrite String.eqb_eq. split; congruence.
Qed.

Lemma nodeById_Some (ns : list node) (i : node_id) (d : node) :
  nodeById ns i = Some d -> In d ns /\ node_id_of d = i.
Proof.
  unfold nodeById. intros H. apply find_some in H. destruct H as [Hin Hid].
  split; [now apply in_rev | now apply node_id_eqb_eq].
Qed.

Lemma nodeById_None (ns : list node) (i : node_id) :
  nodeById ns i = None <-> unknown_id ns i.
Proof.
  unfold nodeById, unknown_id. split.
  - intros H d Hd Hid.
    pose proof (find_none _ _ H d) as Hf. cbv beta in Hf.
    rewrite (proj2 (node_id_eqb_eq _ _) Hid) in Hf.
    assert (true = false) by (apply Hf; now apply in_rev in Hd).
    discriminate.
  - intros H.
    destruct (List.find (fun d => node_id_eqb (node_id_of d) i) (rev ns))
      as [d|] eqn:E; [|reflexivity].
    apply find_some in E. destruct E as [Hin Hid].
    apply in_rev in Hin. apply node_id_eqb_eq in Hid. now destruct (H d Hin).
Qed.

(** [forceLink] throws on the first link end, in link order, that names
    no loaded node. *)
Lemma forceLink_initialize_throws (ns : list node) (ls : list link) :
  (exists l, In l ls /\ malformed ns l) ->
  exists i, forceLink_initialize ns ls = inl (NodeNotFound i)
            /\ unknown_id ns i
            /\ exists l, In l ls /\ (i = link_source l \/ i = link_target l).
Proof.
  induction ls as [|l0 ls IH]; intros (l & Hin & Hbad); [destruct Hin|].
  cbn [forceLink_initialize]. unfold find_node.
  destruct (nodeById ns (link_source l0)) as [s|] eqn:Es.
  - destruct (nodeById ns (link_target l0)) as [t|] eqn:Et.
    + destruct IH as (i & Hi & Hu & l1 & Hl1 & Hends).
      * destruct Hin as [<-|Hin]; [|now exists l].
        exfalso. destruct Hbad as [Hb|Hb]; apply nodeById_None in Hb;
          congruence.
      * exists i. rewrite Hi. split; [reflexivity|]. split; [exact Hu|].
        exists l1. split; [now right | exact Hends].
    + exists (link_target l0). split; [reflexivity|].
      split; [now apply nodeById_None|].
      exists l0. split; [now left | now right].
  - exists (link_source l0). split; [reflexivity|].
    split; [now apply nodeById_None|].
    exists l0. split; [now left | now left].
Qed.

(** When every link end names a loaded node, all links are resolved. *)
Lemma forceLink_initialize_resolves (ns : list node) (ls : list link) :
  (forall l, In l ls -> ~ malformed ns l) ->
  exists rls, forceLink_initialize ns ls = inr rls
              /\ map rl_link rls = ls.
Proof.
  induction ls as [|l0 ls IH]; intros Hok; [now exists []|].
  cbn [forceLink_initialize]. unfold find_node.
  destruct (nodeById ns (link_source l0)) as [s|] eqn:Es.
  - destruct (nodeById ns (link_target l0)) as [t|] eqn:Et.
    + destruct IH as (rls & -> & Hmap).
      * intros l Hl. apply Hok. now right.
      * eexists. split; [reflexivity|]. cbn. now rewrite Hmap.
    + exfalso. apply (Hok l0); [now left|]. right. now apply nodeById_None.
  - exfalso. apply (Hok l0); [now left|]. left. now apply nodeById_None.
Qed.

(** ** What [render] draws *)

Lemma groups_of_set_svg (cs : list svg_child) (p : page) :
  groups_of (set_svg cs p)
  = flat_map (fun c => match c with SvgText _ => [] | SvgScene _ n => n end) cs.
Proof. reflexivity. Qed.

Lemma lines_of_set_svg (cs : list svg_child) (p : page) :
  lines_of (set_svg cs p)
  = flat_map (fun c => match c with SvgText _ => [] | SvgScene l _ => l end) cs.
Proof. reflexivity. Qed.

(** On a graph with a node and no malformed link, [render] returns and
    the scene holds one line per link and one group per node. *)
Lemma render_returned (g : graph) (p : page) (rls : list resolved_link) :
  nodes g <> [] ->
  forceLink_initialize (nodes g) (links g) = inr rls ->
  snd (render g p) = Returned
  /\ listening (fst (render g p)) = true
  /\ groups_of (fst (render g p))
     = (groups_of p ++ map (draw_node (nodes g)) (nodes g))%list
  /\ lines_of (fst (render g p))
     = (lines_of p ++ map (draw_line (links g)) (links g))%list.
Proof.
  intros Hne Hinit. unfold render.
  destruct (nodes g) as [|d ns] eqn:Hns; [congruence|].
  rewrite Hinit. cbn [fst snd].
  split; [reflexivity|]. split; [reflexivity|].
  unfold groups_of, lines_of. cbn [svg set_listening set_sim set_svg set_controls].
  rewrite !flat_map_app. cbn [flat_map]. rewrite !app_nil_r.
  split; reflexivity.
Qed.

(** On a graph with a node and no malformed link [render] returns, with
    the whole graph drawn. *)
Lemma render_well_formed (g : graph) (p : page) :
  nodes g <> [] ->
  (forall l, In l (links g) -> ~ malformed (nodes g) l) ->
  snd (render g p) = Returned
  /\ map g_datum (groups_of (fst (render g p)))
     = (map g_datum (groups_of p) ++ nodes g)%list
  /\ map l_datum (lines_of (fst (render g p)))
     = (map l_datum (lines_of p) ++ links g)%list.
Proof.
  intros Hne Hok.
  destruct (forceLink_initialize_resolves _ _ Hok) as (rls & Hinit & _).
  destruct (render_returned g p rls Hne Hinit) as (Hr & _ & Hg & Hl).
  split; [exact Hr|]. rewrite Hg, Hl, !map_app, !map_map. cbn.
  now rewrite !map_id.
Qed.

(** What [render] leaves in the scene, whether it returns or throws,
    was drawn by [draw_node] and [draw_line]. *)
Lemma render_groups (g : graph) (w h : Q) (gr : node_g) :
  In gr (groups_of (fst (render g (blank_page w h)))) ->
  exists d, In d (nodes g) /\ gr = draw_node (nodes g) d.
Proof.
  unfold render.
  destruct (nodes g) as [|d ns] eqn:Hns; [cbn; intros []|].
  destruct (forceLink_initialize (d :: ns) (links g)); [cbn; intros []|].
  unfold groups_of, lines_of.
  cbn [fst svg set_listening set_sim set_svg set_controls blank_page app
       flat_map].
  rewrite app_nil_r, in_map_iff.
  intros (e & <- & He). now exists e.
Qed.

Lemma render_lines (g : graph) (w h : Q) (ln : line) :
  In ln (lines_of (fst (render g (blank_page w h)))) ->
  exists l, In l (links g) /\ ln = draw_line (links g) l.
Proof.
  unfold render.
  destruct (nodes g) as [|d ns] eqn:Hns; [cbn; intros []|].
  destruct (forceLink_initialize (d :: ns) (links g)); [cbn; intros []|].
  unfold groups_of, lines_of.
  cbn [fst svg set_listening set_sim set_svg set_controls blank_page app
       flat_map].
  rewrite app_nil_r, in_map_iff.
  intros (e & <- & He). now exists e.
Qed.

Section ScaleClaims.
Local Open Scope Q_scope.

(** C3, as the script has it.  On a graph with at least one node the
    radius scale is the affine map of [0, m] onto [6, 22], where [m] is
    the largest collab_count, or 1 when that largest count is 0; so it
    sends 0 to 6 and [m] to 22, and every node drawn with collab_count 0
    has radius 6.  The width scale is D3's linear scale of
    [1, max weight or 1] onto [1.5, 6] (the "or 1" applies when there is
    no link or the largest weight is 0): the affine map when the upper
    end is not 1, and the constant 3.75 when it is. *)
Theorem scales_of_loaded_graph :
  forall g : graph,
    nodes g <> [] ->
    (exists mx, is_max (collab_counts (nodes g)) mx
                /\ maxCollab (nodes g) = if Qeq_bool mx 0 then 1 else mx)
    /\ (forall c, nodeRadius (nodes g) c == 6 + 16 * c / maxCollab (nodes g))
    /\ nodeRadius (nodes g) 0 == 6
    /\ nodeRadius (nodes g) (maxCollab (nodes g)) == 22
    /\ (forall (w h : Q) (gr : node_g),
          In gr (groups_of (fst (render g (blank_page w h)))) ->
          node_collab_count (g_datum gr) = 0%Z ->
          c_r (g_body gr) == 6)
    /\ ((links g = [] /\ maxWeight (links g) = 1)
        \/ exists mw, is_max (weights (links g)) mw
                      /\ maxWeight (links g) = if Qeq_bool mw 0 then 1 else mw)
    /\ (forall v, ~ maxWeight (links g) == 1 ->
          linkWidth (links g) v
          == 1.5 + 4.5 * (v - 1) / (maxWeight (links g) - 1))
    /\ (forall v, maxWeight (links g) == 1 -> linkWidth (links g) v == 3.75).
Proof.
  intros g Hne.
  pose proof (maxCollab_nonzero (nodes g)) as Hm.
  split; [now apply maxCollab_cases|].
  split; [apply nodeRadius_affine|].
  split; [rewrite nodeRadius_affine; field; exact Hm|].
  split; [rewrite nodeRadius_affine; field; exact Hm|].
  split.
  { intros w h gr Hin Hc.
    destruct (render_groups _ _ _ _ Hin) as (d & _ & ->).
    cbn [draw_node draw_body g_body g_datum c_r] in Hc |- *.
    rewrite Hc, nodeRadius_affine. field. exact Hm. }
  split; [apply maxWeight_cases|].
  split.
  - intros v Hv. unfold linkWidth. rewrite scaleLinear_affine by exact Hv.
    field. intros H. apply Hv. lra.
  - intros v Hv. unfold linkWidth. rewrite scaleLinear_collapsed by exact Hv.
    reflexivity.
Qed.

(** C3 on the graph of section 8: Alan Turing, with no collaboration,
    is drawn with radius 6. *)
Lemma scales_of_example_graph :
  nodes example_graph <> []
  /\ nodeRadius (nodes example_graph) 0 == 6
  /\ nodeRadius (nodes example_graph) 5 == 22.
Proof.
  assert (nodes example_graph <> []) as Hne by discriminate.
  destruct (scales_of_loaded_graph example_graph Hne)
    as (_ & _ & H0 & Hm & _).
  split; [exact Hne|]. split; [exact H0 | exact Hm].
Defined.

(** The graph of section 8 as [render] draws it: radii 22 and 6, a
    link of width 6, the selectors and the legend in sorted order. *)
Example example_graph_rendered :
  snd (render example_graph (blank_page 800 600)) = Returned
  /\ map (fun gr => Qred (c_r (g_body gr)))
       (groups_of (fst (render example_graph (blank_page 800 600))))
     = [22; 6]
  /\ map (fun l => Qred (l_stroke_width l))
       (lines_of (fst (render example_graph (blank_page 800 600))))
     = [6]
  /\ filterDept_options (fst (render example_graph (blank_page 800 600)))
     = [""; "Engineering"; "Research"]%string
  /\ legendBox (fst (render example_graph (blank_page 800 600)))
     = [ {| legend_dot := JString "#6366f1"; legend_text := Some "Builder" |};
         {| legend_dot := JString "#22d3ee";
            legend_text := Some "Researcher" |} ]%string.
Proof. repeat split; vm_compute; reflexivity. Qed.

(** C3, as worded, fails on a graph whose only node has collab_count 5:
    the graph has one distinct value, so the wording puts the upper end
    of the domain at 1 and the node's radius at 86; the script puts the
    upper end at 5 and the radius at 22. *)
Lemma radius_domain_not_as_worded :
  distinct_collab_counts [ada] = 1%nat
  /\ maxCollab_as_worded [ada] = 1
  /\ maxCollab [ada] = 5
  /\ ~ maxCollab [ada] == maxCollab_as_worded [ada]
  /\ nodeRadius [ada] 5 == 22
  /\ scaleLinear (0, maxCollab_as_worded [ada]) (6, 22) 5 == 86.
Proof.
  repeat split; try reflexivity.
  vm_compute. discriminate.
Qed.

(** C9.  On a graph whose collab_counts are non-negative and whose
    weights are at least 1, as the data model has them: of two nodes the
    one with the larger or equal collab_count is drawn with the larger
    or equal radius, and of two links the one with the larger or equal
    weight is drawn with the larger or equal stroke width. *)
Theorem scales_monotone :
  forall g : graph,
    collab_counts_ok (nodes g) ->
    weights_ok (links g) ->
    (forall a b : node,
       In a (nodes g) -> In b (nodes g) ->
       (node_collab_count a <= node_collab_count b)%Z ->
       c_r (g_body (draw_node (nodes g) a))
       <= c_r (g_body (draw_node (nodes g) b)))
    /\ (forall l1 l2 : link,
          In l1 (links g) -> In l2 (links g) ->
          link_weight l1 <= link_weight l2 ->
          l_stroke_width (draw_line (links g) l1)
          <= l_stroke_width (draw_line (links g) l2)).
Proof.
  intros g Hn Hl. split.
  - intros a b _ _ Hab. cbn [draw_node draw_body g_body c_r].
    unfold nodeRadius.
    apply scaleLinear_monotone; try lra.
    + pose proof (maxCollab_positive _ Hn). lra.
    + now rewrite <- Zle_Qle.
  - intros l1 l2 _ _ H12. cbn [draw_line l_stroke_width]. unfold linkWidth.
    apply scaleLinear_monotone; try lra.
    now apply maxWeight_ge_1.
Qed.

Lemma example_graph_ok :
  collab_counts_ok (nodes example_graph) /\ weights_ok (links example_graph).
Proof.
  split.
  - intros n [<-|[<-|[]]]; cbn; lia.
  - intros l [<-|[]]; cbn; lra.
Qed.

(** C9 on the graph of section 8: Alan Turing (0) is not drawn larger
    than Ada Lovelace (5). *)
Lemma scales_monotone_example :
  collab_counts_ok (nodes example_graph)
  /\ weights_ok (links example_graph)
  /\ c_r (g_body (draw_node (nodes example_graph) alan))
     <= c_r (g_body (draw_node (nodes example_graph) ada)).
Proof.
  destruct example_graph_ok as [Hn Hl].
  split; [exact Hn|]. split; [exact Hl|].
  destruct (scales_monotone example_graph Hn Hl) as [Hr _].
  apply Hr; cbn; [tauto | tauto | lia].
Defined.

End ScaleClaims.

(** ** Archetype colors *)

(** The keys of the table and their colors. *)
Lemma ARCHETYPE_COLORS_lookup (a c : string) :
  ARCHETYPE_COLORS !! a = Some c ->
  In (a, c)
    [ ("Builder", "#6366f1"); ("Designer", "#f472b6");
      ("Researcher", "#22d3ee"); ("Communicator", "#facc15");
      ("Strategist", "#34d399"); ("Unknown", "#94a3b8") ].
Proof.
  unfold ARCHETYPE_COLORS. rewrite !lookup_insert, lookup_empty.
  intros Hlook. repeat case_decide; simplify_eq; cbn; tauto.
Qed.

(** A name in the table gets the table's color. *)
Lemma archetypeColor_known (a c : string) :
  ARCHETYPE_COLORS !! a = Some c -> archetypeColor (Some a) = JString c.
Proof.
  intros H. unfold archetypeColor, get_property. cbn [toPropertyKey].
  rewrite H. apply ARCHETYPE_COLORS_lookup in H.
  repeat (destruct H as [H|H]; [injection H as <- <-; reflexivity|]).
  destruct H.
Qed.

(** A name that is neither in the table nor inherited from
    [Object.prototype], and a missing archetype, get the fallback. *)
Lemma archetypeColor_fallback (a : option string) :
  ARCHETYPE_COLORS !! toPropertyKey a = None ->
  existsb (String.eqb (toPropertyKey a)) Object_prototype_names = false ->
  archetypeColor a = JString "#94a3b8".
Proof.
  intros H1 H2. unfold archetypeColor, get_property. now rewrite H1, H2.
Qed.

Lemma archetypeColor_missing : archetypeColor None = JString "#94a3b8".
Proof. reflexivity. Qed.

(** Ring, body, legend and panel take their color from the one
    expression [archetypeColor]. *)
Lemma archetypeColor_everywhere (g : graph) (w h : Q) :
  (forall gr, In gr (groups_of (fst (render g (blank_page w h)))) ->
     c_stroke (g_ring gr) = archetypeColor (node_archetype (g_datum gr))
     /\ c_fill (g_body gr) = archetypeColor (node_archetype (g_datum gr)))
  /\ (forall it, In it (legendBox (fst (render g (blank_page w h)))) ->
        legend_dot it = archetypeColor (legend_text it))
  /\ (forall d p,
        option_map sb_badge_background (sidebar_html (sidebar (node_click d p)))
        = Some (archetypeColor (node_archetype d))).
Proof.
  split; [|split].
  - intros gr Hin. destruct (render_groups _ _ _ _ Hin) as (d & _ & ->).
    split; reflexivity.
  - unfold render. destruct (nodes g) as [|d ns]; [intros it []|].
    destruct (forceLink_initialize (d :: ns) (links g));
      cbn [fst legendBox set_listening set_sim set_svg set_controls
           blank_page app];
      intros it Hin; apply in_map_iff in Hin;
      destruct Hin as (a & <- & _); reflexivity.
  - reflexivity.
Qed.

(** C4 at the archetype [constructor].  The name is not in the color
    table, yet the ring, the body, the legend entry and the panel badge
    of such a node are given, instead of the fallback [#94a3b8], the
    member that the table inherits from [Object.prototype] under that
    name. *)
Theorem archetypeColor_constructor :
  ARCHETYPE_COLORS !! "constructor" = None
  /\ archetypeColor (Some "constructor") = JInherited "constructor"
  /\ map (fun gr => c_stroke (g_ring gr)) (groups_of odd_page)
     = [JInherited "constructor"]
  /\ map (fun gr => c_fill (g_body gr)) (groups_of odd_page)
     = [JInherited "constructor"]
  /\ map legend_dot (legendBox odd_page) = [JInherited "constructor"]
  /\ option_map sb_badge_background
       (sidebar_html (sidebar (dispatch odd_page (NodeClick odd_node))))
     = Some (JInherited "constructor")
  /\ get_property ARCHETYPE_COLORS "Unknown" = JString "#94a3b8".
Proof. repeat split; vm_compute; reflexivity. Qed.

(** ** The empty graph *)

(** C7.  On a graph without nodes [render] returns after appending one
    [text] to the SVG: the centered placeholder "No users found. The
    network is empty."  Nothing else of the page changes: no simulation
    is created, no handler is registered, no selector option, legend
    entry or scene group is added, and nothing is thrown, so nothing is
    logged. *)
Theorem render_empty_graph :
  forall (ls : list link) (p : page),
    let g := {| nodes := []; links := ls |} in
    render g p = (set_svg (svg p ++ [SvgText (empty_placeholder p)]) p, Returned)
    /\ on_data g p = fst (render g p)
    /\ svg (fst (render g p)) = (svg p ++ [SvgText (empty_placeholder p)])%list
    /\ ph_text (empty_placeholder p) = "No users found. The network is empty."
    /\ ph_anchor (empty_placeholder p) = "middle"
    /\ ph_x (empty_placeholder p) = (width p / 2)%Q
    /\ ph_y (empty_placeholder p) = (height p / 2)%Q
    /\ sim (fst (render g p)) = sim p
    /\ listening (fst (render g p)) = listening p
    /\ zoom_scaleExtent (fst (render g p)) = zoom_scaleExtent p
    /\ filterDept_options (fst (render g p)) = filterDept_options p
    /\ filterArch_options (fst (render g p)) = filterArch_options p
    /\ legendBox (fst (render g p)) = legendBox p
    /\ console (on_data g p) = console p
    /\ groups_of (fst (render g p)) = groups_of p
    /\ lines_of (fst (render g p)) = lines_of p.
Proof.
  intros ls p g. repeat split.
  - unfold groups_of. cbn. rewrite flat_map_app. cbn. apply app_nil_r.
  - unfold lines_of. cbn. rewrite flat_map_app. cbn. apply app_nil_r.
Qed.

(** On a page that held nothing, the empty graph leaves exactly the
    placeholder, no simulation and no handler. *)
Lemma render_empty_graph_blank (ls : list link) (w h : Q) :
  let p := fst (render {| nodes := []; links := ls |} (blank_page w h)) in
  svg p = [SvgText (empty_placeholder (blank_page w h))]
  /\ sim p = None
  /\ listening p = false
  /\ forall es, run es p = p.
Proof.
  cbn. repeat split.
  induction es as [|e es IH]; [reflexivity | exact IH].
Qed.

(** ** The tooltip *)

Section TooltipFacts.
Local Open Scope Q_scope.

(** C6.  Let the pointer be inside the container, at most [width] to the
    right of and at most [height] below its top-left corner, and let the
    tooltip be no larger than the 200 by 180 box the handler reserves
    for it.  Then the position the [mousemove] handler computes, and
    writes to the tooltip, keeps the tooltip's right edge within the
    container's width and its bottom edge within the container's
    height. *)
Theorem tooltip_inside_container :
  forall (p : page) (clientX clientY rect_left rect_top tw th : Q),
    0 <= clientX - rect_left <= width p ->
    0 <= clientY - rect_top <= height p ->
    tw <= 200 ->
    th <= 180 ->
    exists left top,
      tooltip_left (tooltip (mousemove clientX clientY rect_left rect_top p))
      = Some left
      /\ tooltip_top (tooltip (mousemove clientX clientY rect_left rect_top p))
         = Some top
      /\ (left, top)
         = tooltip_position clientX clientY rect_left rect_top
             (width p) (height p)
      /\ left + tw <= width p
      /\ top + th <= height p.
Proof.
  intros p cx cy rl rt tw th Hx Hy Htw Hth.
  unfold mousemove, tooltip_position.
  eexists _, _. cbn [tooltip set_tooltip tooltip_left tooltip_top].
  split; [reflexivity|]. split; [reflexivity|]. split; [reflexivity|].
  split.
  - destruct (QMicromega.Qlt_bool (width p) (cx - rl + 16 + 200)) eqn:E;
      [|apply Qlt_bool_false in E]; lra.
  - destruct (QMicromega.Qlt_bool (height p) (cy - rt + 16 + 180)) eqn:E;
      [|apply Qlt_bool_false in E]; lra.
Qed.

(** C6 near the bottom-right corner of an 800 by 600 container: the
    tooltip is flipped to the left of and above the pointer. *)
Lemma tooltip_inside_container_example :
  tooltip_position 710 520 10 20 800 600 = (496, 316)
  /\ exists left top,
       tooltip_left (tooltip (mousemove 710 520 10 20 (blank_page 800 600)))
       = Some left
       /\ tooltip_top (tooltip (mousemove 710 520 10 20 (blank_page 800 600)))
          = Some top
       /\ (left, top) = tooltip_position 710 520 10 20 800 600
       /\ left + 200 <= 800
       /\ top + 180 <= 600.
Proof.
  split; [reflexivity|].
  apply (tooltip_inside_container (blank_page 800 600) 710 520 10 20 200 180);
    cbn; lra.
Defined.

End TooltipFacts.

(** ** Drag *)

Section DragFacts.
Local Open Scope Q_scope.

Lemma drag_step_pinned (m : drag_move) (st : simulation * body) :
  pinned (snd st) -> pinned (snd (drag_step m st)).
Proof.
  intros [[px Hx] [py Hy]]. destruct m as [ex ey | dvx dvy]; cbn.
  - split; eauto.
  - unfold tick_body. rewrite Hx, Hy. cbn. split; eauto.
Qed.

(** From the start of a gesture to its end the node stays pinned. *)
Lemma moves_pinned (moves : list drag_move) :
  forall st : simulation * body,
    pinned (snd st) ->
    pinned (snd (fold_left (fun acc m => drag_step m acc) moves st)).
Proof.
  induction moves as [|m moves IH]; intros st H; cbn; [exact H|].
  apply IH. now apply drag_step_pinned.
Qed.

(** Neither a move nor a tick touches the simulation's controls. *)
Lemma moves_simulation (moves : list drag_move) :
  forall st : simulation * body,
    fst (fold_left (fun acc m => drag_step m acc) moves st) = fst st.
Proof.
  induction moves as [|m moves IH]; intros st; cbn; [reflexivity|].
  rewrite IH. now destruct m.
Qed.

(** C5.  At the start of a drag the node's [fx]/[fy] become its current
    position, and the simulation gets the decay target 0.3 and is
    restarted exactly when no other gesture is active.  Every drag move
    sets [fx]/[fy] to the pointer position (and the next tick puts the
    node there); the node stays pinned until the end.  At the end the
    decay target goes back to 0 when no gesture remains active, and
    [fx]/[fy] are cleared; so after a whole gesture, whatever its moves
    and the ticks between them, the node is not pinned. *)
Theorem drag_gesture :
  forall (s : simulation) (d : body) (active0 active1 : nat)
         (moves : list drag_move) (px py dvx dvy : Q),
    (fx (snd (dragStarted active0 s d)) = Some (x d)
     /\ fy (snd (dragStarted active0 s d)) = Some (y d))
    /\ (active0 = 0%nat ->
        sim_alphaTarget (fst (dragStarted active0 s d)) = 0.3
        /\ 0 < sim_alphaTarget (fst (dragStarted active0 s d))
        /\ sim_running (fst (dragStarted active0 s d)) = true)
    /\ (active0 <> 0%nat -> fst (dragStarted active0 s d) = s)
    /\ (fx (snd (dragged px py s d)) = Some px
        /\ fy (snd (dragged px py s d)) = Some py
        /\ fst (dragged px py s d) = s
        /\ x (tick_body dvx dvy (snd (dragged px py s d))) = px
        /\ y (tick_body dvx dvy (snd (dragged px py s d))) = py)
    /\ pinned
         (snd (fold_left (fun acc m => drag_step m acc) moves
                 (dragStarted active0 s d)))
    /\ (active1 = 0%nat -> sim_alphaTarget (fst (dragEnded active1 s d)) = 0)
    /\ (active1 <> 0%nat -> fst (dragEnded active1 s d) = s)
    /\ (fx (snd (dragEnded active1 s d)) = None
        /\ fy (snd (dragEnded active1 s d)) = None)
    /\ (fx (snd (gesture active0 moves active1 (s, d))) = None
        /\ fy (snd (gesture active0 moves active1 (s, d))) = None)
    /\ (active1 = 0%nat ->
        sim_alphaTarget (fst (gesture active0 moves active1 (s, d))) = 0).
Proof.
  intros s d a0 a1 moves px py dvx dvy.
  split; [split; reflexivity|].
  split; [intros ->; cbn; repeat split|].
  split.
  { intros H. unfold dragStarted. destruct a0; [congruence | reflexivity]. }
  split; [repeat split|].
  split.
  { apply moves_pinned. cbn. split; eauto. }
  split; [intros ->; reflexivity|].
  split.
  { intros H. unfold dragEnded. destruct a1; [congruence | reflexivity]. }
  split; [split; reflexivity|].
  split; [split; reflexivity|].
  intros ->. reflexivity.
Qed.

(** A drag of a node at (10, 20) to (40, 50) and on to (60, 70), with
    ticks in between, while the simulation was idle. *)
Example drag_gesture_example :
  let s := {| sim_alpha := 0; sim_alphaTarget := 0; sim_running := false;
              sim_forces := [] |} in
  let d := {| x := 10; y := 20; vx := 1; vy := 1; fx := None; fy := None |} in
  let moves := [Drag 40 50; Tick 2 3; Drag 60 70; Tick 1 1] in
  dragStarted 0 s d
  = ({| sim_alpha := 0; sim_alphaTarget := 0.3; sim_running := true;
        sim_forces := [] |},
     {| x := 10; y := 20; vx := 1; vy := 1;
        fx := Some 10; fy := Some 20 |})
  /\ gesture 0 moves 0 (s, d)
     = ({| sim_alpha := 0; sim_alphaTarget := 0; sim_running := true;
           sim_forces := [] |},
        {| x := 60; y := 70; vx := 0; vy := 0; fx := None; fy := None |}).
Proof. split; reflexivity. Qed.

End DragFacts.

(** ** Links to unknown nodes *)

(** C8, as the script has it.  On a graph with at least one node and a
    link whose source or target is the id of no loaded node, [render]
    throws "node not found" for such an id: no line and no node group is
    drawn, no handler is registered, and the promise chain logs the
    error.  (A graph with no node at all never reaches the link force.) *)
Theorem render_malformed_link :
  forall (g : graph) (p : page),
    nodes g <> [] ->
    (exists l, In l (links g) /\ malformed (nodes g) l) ->
    exists i,
      snd (render g p) = Thrown (NodeNotFound i)
      /\ unknown_id (nodes g) i
      /\ (exists l, In l (links g) /\ (i = link_source l \/ i = link_target l))
      /\ groups_of (fst (render g p)) = groups_of p
      /\ lines_of (fst (render g p)) = lines_of p
      /\ listening (fst (render g p)) = listening p
      /\ console (on_data g p)
         = (console p ++ [("Graph data fetch failed:", NodeNotFound i)])%list.
Proof.
  intros g p Hne Hbad.
  destruct (forceLink_initialize_throws _ _ Hbad) as (i & Hi & Hu & Hl).
  exists i. unfold on_data, render.
  destruct (nodes g) as [|d ns] eqn:Hns; [congruence|].
  rewrite Hi. cbn [fst snd].
  split; [reflexivity|]. split; [exact Hu|]. split; [exact Hl|].
  unfold groups_of, lines_of.
  cbn [svg set_sim set_svg set_controls listening console log_error].
  rewrite !flat_map_app. cbn [flat_map]. rewrite !app_nil_r.
  repeat split.
Qed.

Lemma render_malformed_link_example :
  nodes dangling_graph <> []
  /\ (exists l, In l (links dangling_graph)
                /\ malformed (nodes dangling_graph) l)
  /\ exists i,
       snd (render dangling_graph (blank_page 800 600))
       = Thrown (NodeNotFound i)
       /\ unknown_id (nodes dangling_graph) i
       /\ (exists l, In l (links dangling_graph)
                     /\ (i = link_source l \/ i = link_target l))
       /\ groups_of (fst (render dangling_graph (blank_page 800 600)))
          = groups_of (blank_page 800 600)
       /\ lines_of (fst (render dangling_graph (blank_page 800 600)))
          = lines_of (blank_page 800 600)
       /\ listening (fst (render dangling_graph (blank_page 800 600)))
          = listening (blank_page 800 600)
       /\ console (on_data dangling_graph (blank_page 800 600))
          = (console (blank_page 800 600)
             ++ [("Graph data fetch failed:", NodeNotFound i)])%list.
Proof.
  assert (nodes dangling_graph <> []) as Hne by discriminate.
  assert (exists l, In l (links dangling_graph)
                    /\ malformed (nodes dangling_graph) l) as Hbad.
  { exists ada_alan. split; [now left|]. right.
    intros d [<-|[]]. discriminate. }
  split; [exact Hne|]. split; [exact Hbad|].
  exact (render_malformed_link dangling_graph (blank_page 800 600) Hne Hbad).
Defined.

(** C8, as worded, fails on a graph that has the same link and no node:
    the link's ends match no loaded node, yet [render] returns, shows
    the empty-network placeholder and nothing is logged. *)
Lemma render_malformed_link_no_nodes :
  In ada_alan (links {| nodes := []; links := [ada_alan] |})
  /\ malformed (nodes {| nodes := []; links := [ada_alan] |}) ada_alan
  /\ snd (render {| nodes := []; links := [ada_alan] |} (blank_page 800 600))
     = Returned
  /\ svg (fst (render {| nodes := []; links := [ada_alan] |}
                 (blank_page 800 600)))
     = [SvgText (empty_placeholder (blank_page 800 600))]
  /\ console (on_data {| nodes := []; links := [ada_alan] |}
                (blank_page 800 600)) = [].
Proof.
  split; [now left|]. split; [left; intros d []|].
  repeat split.
Qed.

(** ** Link opacity *)

Section LinkOpacity.
Local Open Scope Q_scope.

(** The handlers that reach the simulation split on whether there is
    one. *)
Ltac on_simulation p :=
  unfold resize, on_drag; cbn; destruct (sim p); reflexivity.

Lemma handle_listening (e : event) (p : page) :
  listening (handle e p) = listening p.
Proof. destruct e; try reflexivity; cbn; on_simulation p. Qed.

(** A filter event runs [applyFilters]; no other handler touches a
    line. *)
Lemma handle_lines (e : event) (p : page) :
  lines_of (handle e p)
  = if filter_event e then map applyFilters_link (lines_of p) else lines_of p.
Proof.
  destruct e; cbn [handle filter_event];
    try (rewrite lines_of_applyFilters; reflexivity); try reflexivity;
    on_simulation p.
Qed.

Lemma dispatch_lines (e : event) (p : page) :
  lines_of (dispatch p e)
  = if listening p && filter_event e
    then map applyFilters_link (lines_of p) else lines_of p.
Proof.
  unfold dispatch. destruct (listening p); cbn [andb]; [|reflexivity].
  apply handle_lines.
Qed.

Lemma dispatch_dimmed (e : event) (p : page) :
  dimmed p -> dimmed (dispatch p e).
Proof.
  unfold dimmed. rewrite dispatch_lines.
  destruct (listening p && filter_event e); [|auto].
  intros _ l Hl. apply in_map_iff in Hl. now destruct Hl as (l0 & <- & _).
Qed.

Lemma dispatch_teal (e : event) (p : page) : teal p -> teal (dispatch p e).
Proof.
  unfold teal. rewrite dispatch_lines.
  destruct (listening p && filter_event e); [|auto].
  intros H l Hl. apply in_map_iff in Hl. destruct Hl as (l0 & <- & Hl0).
  cbn. now apply H.
Qed.

Lemma run_dimmed (es : list event) :
  forall p, dimmed p -> teal p -> dimmed (run es p) /\ teal (run es p).
Proof.
  induction es as [|e es IH]; intros p Hd Ht; cbn; [now split|].
  apply IH; [now apply dispatch_dimmed | now apply dispatch_teal].
Qed.

(** No event adds or removes a line. *)
Lemma run_keeps_links (es : list event) :
  forall p, map l_datum (lines_of (run es p)) = map l_datum (lines_of p).
Proof.
  induction es as [|e es IH]; intros p; cbn; [reflexivity|].
  rewrite IH, dispatch_lines.
  destruct (listening p && filter_event e); [|reflexivity].
  rewrite map_map. reflexivity.
Qed.

Lemma render_lines_initial (g : graph) (w h : Q) (l : line) :
  In l (lines_of (fst (render g (blank_page w h)))) ->
  l_stroke_opacity l = None /\ l_stroke_alpha l = 0.35.
Proof.
  intros Hin. destruct (render_lines _ _ _ _ Hin) as (l0 & _ & ->).
  split; reflexivity.
Qed.

(** A page on which [render] registered nothing shows no line. *)
Lemma render_deaf_no_lines (g : graph) (w h : Q) :
  listening (fst (render g (blank_page w h))) = false ->
  lines_of (fst (render g (blank_page w h))) = [].
Proof.
  unfold render. destruct (nodes g) as [|d ns]; [reflexivity|].
  destruct (forceLink_initialize (d :: ns) (links g)); [reflexivity|].
  cbn. discriminate.
Qed.

(** C10.  [render] draws every line without a stroke-opacity, so that it
    shows the 0.35 of its stroke color.  Every run of [applyFilters],
    whatever the search field and the selectors hold, leaves every line
    with stroke-opacity 0.25.  Hence after a first search or filter
    event, and after any events that follow it, every line still has
    stroke-opacity 0.25 and shows 0.35 * 0.25, not 0.35; and no event
    removes a line. *)
Theorem links_stay_dimmed :
  forall (g : graph) (w h : Q),
    (forall l, In l (lines_of (fst (render g (blank_page w h)))) ->
       l_stroke_opacity l = None /\ line_opacity l == 0.35)
    /\ (forall (p : page) (l : line),
          In l (lines_of (applyFilters p)) -> l_stroke_opacity l = Some 0.25)
    /\ (forall (e : event) (es : list event) (l : line),
          filter_event e = true ->
          In l (lines_of (run (e :: es) (fst (render g (blank_page w h))))) ->
          l_stroke_opacity l = Some 0.25
          /\ line_opacity l == 0.0875
          /\ ~ line_opacity l == 0.35)
    /\ (forall es : list event,
          map l_datum (lines_of (run es (fst (render g (blank_page w h)))))
          = map l_datum (lines_of (fst (render g (blank_page w h))))).
Proof.
  intros g w h. split; [|split; [|split]].
  - intros l Hl. destruct (render_lines_initial _ _ _ _ Hl) as [Ho Ha].
    split; [exact Ho|]. unfold line_opacity. rewrite Ho, Ha. reflexivity.
  - intros p l Hl. rewrite lines_of_applyFilters in Hl.
    apply in_map_iff in Hl. now destruct Hl as (l0 & <- & _).
  - intros e es l He Hl.
    set (p0 := fst (render g (blank_page w h))) in *.
    assert (dimmed (dispatch p0 e) /\ teal (dispatch p0 e)) as [Hd Ht].
    { unfold dimmed, teal. rewrite dispatch_lines, He, andb_true_r.
      destruct (listening p0) eqn:Hlis.
      - split; intros l1 Hl1; apply in_map_iff in Hl1;
          destruct Hl1 as (l0 & <- & Hl0); [reflexivity|].
        cbn. now apply (render_lines_initial g w h).
      - unfold p0. rewrite render_deaf_no_lines by exact Hlis.
        split; intros l1 []. }
    destruct (run_dimmed es _ Hd Ht) as [Hd' Ht'].
    cbn [run fold_left] in Hl. fold (run es (dispatch p0 e)) in Hl.
    specialize (Hd' l Hl). specialize (Ht' l Hl).
    unfold line_opacity. rewrite Hd', Ht'.
    split; [reflexivity|]. split; [reflexivity | discriminate].
  - intros es. apply run_keeps_links.
Qed.

(** On the graph of section 8: typing "ada", then clearing the field,
    leaves both nodes at full opacity with the baseline ring, and the
    link at stroke-opacity 0.25. *)
Example filters_cleared_example :
  let p0 := fst (render example_graph (blank_page 800 600)) in
  let p1 := run [SearchInput "ADA"] p0 in
  let p2 := run [SearchInput "ADA"; SearchInput ""] p0 in
  map l_stroke_opacity (lines_of p0) = [None]
  /\ map (fun gr => (g_opacity gr, c_stroke_opacity (g_ring gr),
                     c_stroke_width (g_ring gr))) (groups_of p1)
     = [(Some 1, Some 1, 4); (Some 0.08, Some 0.3, 2)]
  /\ map l_stroke_opacity (lines_of p1) = [Some 0.25]
  /\ map (fun gr => (g_opacity gr, c_stroke_opacity (g_ring gr),
                     c_stroke_width (g_ring gr))) (groups_of p2)
     = [(Some 1, Some 0.3, 2); (Some 1, Some 0.3, 2)]
  /\ map l_stroke_opacity (lines_of p2) = [Some 0.25].
Proof. repeat split; vm_compute; reflexivity. Qed.

End LinkOpacity.

(** * Further properties of the script *)

(** ** Distinct values and their order *)

Section DistinctSorted.
Context {A : Type} (eqb leb : A -> A -> bool).
Hypothesis eqb_eq : forall a b, eqb a b = true <-> a = b.
Hypothesis leb_total : forall a b, leb a b = true \/ leb b a = true.

Lemma uniq_In (xs : list A) (a : A) : In a (uniq eqb xs) <-> In a xs.
Proof.
  induction xs as [|x xs IH]; cbn; [reflexivity|].
  rewrite <- list_elem_of_In, list_elem_of_filter, list_elem_of_In, IH.
  rewrite Is_true_true, negb_true_iff. split.
  - intros [H|[_ H]]; auto.
  - intros [H|H]; [now left|].
    destruct (eqb x a) eqn:E; [left; now apply eqb_eq | right; auto].
Qed.

Lemma uniq_NoDup (xs : list A) : List.NoDup (uniq eqb xs).
Proof.
  induction xs as [|x xs IH]; cbn; constructor.
  - rewrite <- list_elem_of_In, list_elem_of_filter.
    rewrite Is_true_true, negb_true_iff. intros [H _].
    rewrite (proj2 (eqb_eq x x) eq_refl) in H. discriminate.
  - apply NoDup_ListNoDup, NoDup_filter, NoDup_ListNoDup, IH.
Qed.

Lemma sort_insert_Permutation (a : A) (xs : list A) :
  Permutation (sort_insert leb a xs) (a :: xs).
Proof.
  induction xs as [|x xs IH]; cbn; [reflexivity|].
  destruct (leb a x); [reflexivity|].
  rewrite IH. apply perm_swap.
Qed.

Lemma js_sort_Permutation (xs : list A) : Permutation (js_sort leb xs) xs.
Proof.
  induction xs as [|x xs IH]; cbn; [constructor|].
  fold (js_sort leb xs). rewrite sort_insert_Permutation. now constructor.
Qed.

Lemma sort_insert_Sorted (a : A) (xs : list A) :
  Sorted (fun u v => leb u v = true) xs ->
  Sorted (fun u v => leb u v = true) (sort_insert leb a xs).
Proof.
  induction 1 as [|x xs Hs IH Hd]; cbn; [repeat constructor|].
  destruct (leb a x) eqn:E.
  - constructor; [now constructor | now constructor].
  - constructor; [exact IH|].
    assert (leb x a = true) as Hxa
      by (destruct (leb_total a x); [congruence | assumption]).
    destruct xs as [|z zs]; cbn; [now constructor|].
    destruct (leb a z); constructor; [exact Hxa|].
    now inversion Hd.
Qed.

Lemma js_sort_Sorted (xs : list A) :
  Sorted (fun u v => leb u v = true) (js_sort leb xs).
Proof.
  induction xs as [|x xs IH]; cbn; [constructor|].
  now apply sort_insert_Sorted.
Qed.

(** The sorted distinct values of a list: in order, without repeats,
    and with the members of the list. *)
Lemma sorted_distinct (xs : list A) :
  Sorted (fun u v => leb u v = true) (js_sort leb (uniq eqb xs))
  /\ List.NoDup (js_sort leb (uniq eqb xs))
  /\ forall a, In a (js_sort leb (uniq eqb xs)) <-> In a xs.
Proof.
  split; [apply js_sort_Sorted|]. split.
  - apply (Permutation_NoDup (l := uniq eqb xs)); [|apply uniq_NoDup].
    symmetry. apply js_sort_Permutation.
  - intros a. transitivity (In a (uniq eqb xs)); [|apply uniq_In].
    split; apply Permutation_in;
      [apply js_sort_Permutation | symmetry; apply js_sort_Permutation].
Qed.

End DistinctSorted.

(** ** When [render] returns, and what it adds to the controls *)

Lemma archetype_eqb_eq (a b : option string) :
  archetype_eqb a b = true <-> a = b.
Proof.
  destruct a as [s|], b as [t|]; cbn; try (split; congruence).
  rewrite String.eqb_eq. split; congruence.
Qed.

Lemma archetype_leb_total (a b : option string) :
  archetype_leb a b = true \/ archetype_leb b a = true.
Proof.
  destruct a as [s|], b as [t|]; cbn; auto. apply String.leb_total.
Qed.

(** The selector options, the legend and the zoom are set before the
    link force is built, so they are there whether [render] returns or
    throws. *)
Lemma render_controls (g : graph) (p : page) :
  nodes g <> [] ->
  filterDept_options (fst (render g p))
  = (filterDept_options p
     ++ js_sort String.leb (uniq String.eqb (map node_department (nodes g))))%list
  /\ filterArch_options (fst (render g p))
     = (filterArch_options p
        ++ js_sort archetype_leb
             (uniq archetype_eqb (map node_archetype (nodes g))))%list
  /\ legendBox (fst (render g p))
     = (legendBox p
        ++ map legend_entry
             (js_sort archetype_leb
                (uniq archetype_eqb (map node_archetype (nodes g)))))%list
  /\ zoom_scaleExtent (fst (render g p)) = Some (0.2, 5)%Q.
Proof.
  intros Hne. unfold render.
  destruct (nodes g) as [|d ns]; [congruence|].
  destruct (forceLink_initialize (d :: ns) (links g)); repeat split.
Qed.

(** X1.  [render] returns exactly when the graph has no node or every
    link end is the id of a loaded node; otherwise it throws.  The
    promise chain adds a line to the console exactly when [render]
    threw, and never more than one. *)
Theorem render_returns_iff :
  forall (g : graph) (p : page),
    (snd (render g p) = Returned
     <-> nodes g = [] \/ forall l, In l (links g) -> ~ malformed (nodes g) l)
    /\ (console (on_data g p) = console p <-> snd (render g p) = Returned)
    /\ (length (console (on_data g p)) <= S (length (console p)))%nat.
Proof.
  intros g p.
  assert (snd (render g p) = Returned
          <-> nodes g = [] \/ forall l, In l (links g) -> ~ malformed (nodes g) l)
    as Hiff.
  { split.
    - intros Hret. destruct (nodes g) as [|d ns] eqn:Hns; [now left | right].
      intros l Hl Hbad.
      assert (nodes g <> []) as Hne by congruence.
      assert (exists l, In l (links g) /\ malformed (nodes g) l) as Hex
        by (exists l; now rewrite Hns).
      destruct (forceLink_initialize_throws _ _ Hex) as (i & Hi & _).
      unfold render in Hret. rewrite Hns in *. rewrite Hi in Hret.
      discriminate.
    - intros [Hnil | Hok].
      + unfold render. now rewrite Hnil.
      + destruct (nodes g) as [|d ns] eqn:Hns; [unfold render; now rewrite Hns|].
        destruct (forceLink_initialize_resolves _ _ Hok) as (rls & Hinit & _).
        unfold render. rewrite Hns. now rewrite Hinit. }
  split; [exact Hiff|].
  unfold on_data. destruct (render g p) as [p' [|e]] eqn:Hr; cbn [snd].
  - assert (console p' = console p) as Hc.
    { unfold render in Hr. destruct (nodes g) as [|d ns].
      - injection Hr as <-. reflexivity.
      - destruct (forceLink_initialize (d :: ns) (links g));
          [discriminate | injection Hr as <-; reflexivity]. }
    rewrite Hc. split; [tauto | lia].
  - assert (console p' = console p) as Hc.
    { unfold render in Hr. destruct (nodes g) as [|d ns]; [discriminate|].
      destruct (forceLink_initialize (d :: ns) (links g));
        [injection Hr as <- _; reflexivity | discriminate]. }
    cbn [log_error console]. rewrite Hc, length_app. cbn [length].
    split; [|lia]. split; [|discriminate].
    intros H. apply (f_equal (@length _)) in H.
    rewrite length_app in H. cbn in H. lia.
Qed.

(** X2.  The options [render] appends to the department selector are
    in ascending order, without repeats, and are exactly the departments
    of the loaded nodes; the options that were there stay in front. *)
Theorem department_options :
  forall (g : graph) (p : page),
    exists added : list string,
      filterDept_options (fst (render g p))
      = (filterDept_options p ++ added)%list
      /\ Sorted (fun u v => String.leb u v = true) added
      /\ List.NoDup added
      /\ (forall d, In d added
                    <-> exists n, In n (nodes g) /\ node_department n = d).
Proof.
  intros g p. destruct (nodes g) as [|d0 ns] eqn:Hns.
  - exists []. unfold render. rewrite Hns. cbn. rewrite app_nil_r.
    split; [reflexivity|]. split; [constructor|]. split; [constructor|].
    intros d. split; [intros [] | intros (n & [] & _)].
  - assert (nodes g <> []) as Hne by congruence.
    destruct (render_controls g p Hne) as (Hd & _).
    destruct (sorted_distinct String.eqb String.leb String.eqb_eq
                String.leb_total (map node_department (nodes g)))
      as (Hs & Hn & Hin).
    eexists. split; [exact Hd|]. rewrite <- Hns.
    split; [exact Hs|]. split; [exact Hn|].
    intros d. rewrite Hin, in_map_iff. split; intros (n & H1 & H2); eauto.
Qed.

(** X3.  The archetype selector and the legend get the same entries:
    the distinct archetypes of the loaded nodes, in ascending order with
    a missing archetype last, each legend entry with the color of its
    archetype. *)
Theorem archetype_options_and_legend :
  forall (g : graph) (p : page),
    exists added : list (option string),
      filterArch_options (fst (render g p))
      = (filterArch_options p ++ added)%list
      /\ legendBox (fst (render g p))
         = (legendBox p ++ map legend_entry added)%list
      /\ map legend_text (map legend_entry added) = added
      /\ (forall it, In it (map legend_entry added) ->
            legend_dot it = archetypeColor (legend_text it))
      /\ Sorted (fun u v => archetype_leb u v = true) added
      /\ List.NoDup added
      /\ (forall a, In a added
                    <-> exists n, In n (nodes g) /\ node_archetype n = a)
      /\ (forall pre post, added = (pre ++ None :: post)%list -> post = []).
Proof.
  intros g p.
  assert (forall added : list (option string),
            map legend_text (map legend_entry added) = added
            /\ (forall it, In it (map legend_entry added) ->
                  legend_dot it = archetypeColor (legend_text it))) as Hleg.
  { intros added. split.
    - rewrite map_map. cbn. apply map_id.
    - intros it Hit. apply in_map_iff in Hit.
      now destruct Hit as (a & <- & _). }
  destruct (nodes g) as [|d0 ns] eqn:Hns.
  - exists []. unfold render. rewrite Hns. cbn. rewrite !app_nil_r.
    split; [reflexivity|]. split; [reflexivity|]. split; [reflexivity|].
    split; [intros it []|]. split; [constructor|]. split; [constructor|].
    split.
    + intros a. split; [intros [] | intros (n & [] & _)].
    + intros pre post H. now destruct pre.
  - assert (nodes g <> []) as Hne by congruence.
    destruct (render_controls g p Hne) as (_ & Ha & Hl & _).
    destruct (sorted_distinct archetype_eqb archetype_leb archetype_eqb_eq
                archetype_leb_total (map node_archetype (nodes g)))
      as (Hs & Hn & Hin).
    eexists. split; [exact Ha|]. split; [exact Hl|]. rewrite <- Hns.
    destruct (Hleg (js_sort archetype_leb
                      (uniq archetype_eqb (map node_archetype (nodes g)))))
      as [H1 H2].
    split; [exact H1|]. split; [exact H2|].
    split; [exact Hs|]. split; [exact Hn|]. split.
    + intros a. rewrite Hin, in_map_iff.
      split; intros (n & Hn1 & Hn2); eauto.
    + intros pre post E. rewrite E in Hs, Hn.
      destruct post as [|x post]; [reflexivity | exfalso].
      assert (Sorted (fun u v => archetype_leb u v = true) (None :: x :: post))
        as Hs'.
      { clear -Hs. induction pre as [|y pre IH]; [exact Hs|].
        apply IH. now inversion Hs. }
      inversion Hs' as [|? ? _ Hd]. inversion Hd as [|? ? Hx]. subst.
      destruct x as [s|]; [discriminate|].
      apply NoDup_remove_2 in Hn. apply Hn.
      apply in_or_app. right. now left.
Qed.

(** ** Bounds of the drawn sizes *)

Section SizeBounds.
Local Open Scope Q_scope.

Lemma collab_le_maxCollab (ns : list node) (d : node) :
  collab_counts_ok ns -> In d ns ->
  0 <= inject_Z (node_collab_count d) <= maxCollab ns.
Proof.
  intros Hok Hd.
  assert (0 <= inject_Z (node_collab_count d)) as H0.
  { change 0 with (inject_Z 0). rewrite <- Zle_Qle. now apply Hok. }
  split; [exact H0|].
  destruct (maxCollab_cases ns) as (mx & [_ Hmax] & ->).
  { intros ->. destruct Hd. }
  assert (inject_Z (node_collab_count d) <= mx) as Hle.
  { apply Hmax. unfold collab_counts.
    apply in_map_iff. now exists d. }
  destruct (Qeq_bool mx 0) eqn:E; [|exact Hle].
  apply Qeq_bool_iff in E. lra.
Qed.

Lemma weight_le_maxWeight (ls : list link) (l : link) :
  weights_ok ls -> In l ls -> 1 <= link_weight l <= maxWeight ls.
Proof.
  intros Hok Hl. split; [now apply Hok|].
  destruct (maxWeight_cases ls) as [[-> _] | (mw & [_ Hmax] & ->)];
    [destruct Hl|].
  assert (link_weight l <= mw) as Hle.
  { apply Hmax. unfold weights. apply in_map_iff. now exists l. }
  specialize (Hok l Hl).
  destruct (Qeq_bool mw 0) eqn:E; [|exact Hle].
  apply Qeq_bool_iff in E. lra.
Qed.

(** X4.  On a graph whose collab_counts are non-negative, every node
    group [render] draws has a main circle of radius between 6 and 22,
    a ring 3 wider, and its label 14 below the radius. *)
Theorem drawn_radius_bounds :
  forall (g : graph) (w h : Q) (gr : node_g),
    collab_counts_ok (nodes g) ->
    In gr (groups_of (fst (render g (blank_page w h)))) ->
    6 <= c_r (g_body gr) <= 22
    /\ c_r (g_ring gr) == c_r (g_body gr) + 3
    /\ t_dy (g_label gr) == c_r (g_body gr) + 14.
Proof.
  intros g w h gr Hok Hin.
  destruct (render_groups _ _ _ _ Hin) as (d & Hd & ->).
  cbn [draw_node draw_body draw_ring draw_label g_body g_ring g_label c_r t_dy].
  split; [|split; reflexivity].
  destruct (collab_le_maxCollab _ _ Hok Hd) as [H0 Hm].
  pose proof (maxCollab_positive _ Hok) as Hpos.
  rewrite nodeRadius_affine.
  set (c := inject_Z (node_collab_count d)) in *.
  set (m := maxCollab (nodes g)) in *.
  assert (0 < / m) as Hk by now apply Qinv_lt_0_compat.
  assert (m * / m == 1) as Hone by (apply Qmult_inv_r; lra).
  unfold Qdiv. split; nra.
Qed.

Lemma example_groups_ada :
  In (draw_node (nodes example_graph) ada)
    (groups_of (fst (render example_graph (blank_page 800 600)))).
Proof. left. reflexivity. Qed.

(** X4 on the graph of section 8. *)
Lemma drawn_radius_bounds_example :
  collab_counts_ok (nodes example_graph)
  /\ In (draw_node (nodes example_graph) ada)
       (groups_of (fst (render example_graph (blank_page 800 600))))
  /\ 6 <= c_r (g_body (draw_node (nodes example_graph) ada)) <= 22.
Proof.
  destruct example_graph_ok as [Hn _].
  split; [exact Hn|]. split; [exact example_groups_ada|].
  exact (proj1 (drawn_radius_bounds example_graph 800 600 _ Hn
                  example_groups_ada)).
Defined.

(** X5.  On a graph whose weights are at least 1, every line [render]
    draws has a stroke width between 1.5 and 6. *)
Theorem drawn_width_bounds :
  forall (g : graph) (w h : Q) (ln : line),
    weights_ok (links g) ->
    In ln (lines_of (fst (render g (blank_page w h)))) ->
    1.5 <= l_stroke_width ln <= 6.
Proof.
  intros g w h ln Hok Hin.
  destruct (render_lines _ _ _ _ Hin) as (l & Hl & ->).
  cbn [draw_line l_stroke_width].
  destruct (weight_le_maxWeight _ _ Hok Hl) as [H1 Hm].
  unfold linkWidth.
  destruct (Qeq_dec (maxWeight (links g)) 1) as [E|E].
  - rewrite (scaleLinear_collapsed _ _ _ _ _ E).
    assert ((1.5 + 6) / 2 == 3.75) as -> by reflexivity. split; lra.
  - rewrite (scaleLinear_affine _ _ _ _ _ E).
    set (v := link_weight l) in *. set (m := maxWeight (links g)) in *.
    assert (0 < m - 1) as Hpos by lra.
    assert (0 < / (m - 1)) as Hk by now apply Qinv_lt_0_compat.
    assert ((m - 1) * / (m - 1) == 1) as Hone by (apply Qmult_inv_r; lra).
    unfold Qdiv. split; nra.
Qed.

Lemma example_lines_ada_alan :
  In (draw_line (links example_graph) ada_alan)
    (lines_of (fst (render example_graph (blank_page 800 600)))).
Proof. left. reflexivity. Qed.

(** X5 on the graph of section 8. *)
Lemma drawn_width_bounds_example :
  weights_ok (links example_graph)
  /\ In (draw_line (links example_graph) ada_alan)
       (lines_of (fst (render example_graph (blank_page 800 600))))
  /\ 1.5 <= l_stroke_width (draw_line (links example_graph) ada_alan) <= 6.
Proof.
  destruct example_graph_ok as [_ Hl].
  split; [exact Hl|]. split; [exact example_lines_ada_alan|].
  exact (drawn_width_bounds example_graph 800 600 _ Hl example_lines_ada_alan).
Defined.

End SizeBounds.

(** ** The link force *)

Lemma forceLink_initialize_ends (ns : list node) (ls : list link) :
  forall rls,
    forceLink_initialize ns ls = inr rls ->
    map rl_link rls = ls
    /\ forall rl, In rl rls ->
         nodeById ns (link_source (rl_link rl)) = Some (rl_source rl)
         /\ nodeById ns (link_target (rl_link rl)) = Some (rl_target rl).
Proof.
  induction ls as [|l ls IH]; intros rls H; cbn in H.
  - injection H as <-. split; [reflexivity | intros rl []].
  - unfold find_node in H.
    destruct (nodeById ns (link_source l)) as [s|] eqn:Es; [|discriminate].
    destruct (nodeById ns (link_target l)) as [t|] eqn:Et; [|discriminate].
    destruct (forceLink_initialize ns ls) as [e|rs]; [discriminate|].
    injection H as <-. destruct (IH rs eq_refl) as [Hm Hends].
    split; [cbn; now rewrite Hm|].
    intros rl [<-|Hrl]; [cbn; auto | now apply Hends].
Qed.

(** X6.  When [render] returns on a graph with nodes, the link force
    holds the links of the graph, in their order, each with its two ends
    replaced by loaded nodes that carry the ids the link named. *)
Theorem resolved_links :
  forall (g : graph) (w h : Q),
    nodes g <> [] ->
    snd (render g (blank_page w h)) = Returned ->
    map rl_link (resolved_links_of (fst (render g (blank_page w h)))) = links g
    /\ forall rl,
         In rl (resolved_links_of (fst (render g (blank_page w h)))) ->
         In (rl_source rl) (nodes g)
         /\ node_id_of (rl_source rl) = link_source (rl_link rl)
         /\ In (rl_target rl) (nodes g)
         /\ node_id_of (rl_target rl) = link_target (rl_link rl).
Proof.
  intros g w h Hne Hret. unfold render in *.
  destruct (nodes g) as [|d ns] eqn:Hns; [congruence|].
  destruct (forceLink_initialize (d :: ns) (links g)) as [e|rls] eqn:Hi;
    [discriminate|].
  destruct (forceLink_initialize_ends _ _ _ Hi) as [Hm Hends].
  cbn. rewrite app_nil_r. split; [exact Hm|].
  intros rl Hrl. destruct (Hends rl Hrl) as [Hs Ht].
  apply nodeById_Some in Hs. apply nodeById_Some in Ht.
  destruct Hs as [Hs1 Hs2]. destruct Ht as [Ht1 Ht2]. auto.
Qed.

(** X6 on the graph of section 8. *)
Lemma resolved_links_example :
  nodes example_graph <> []
  /\ snd (render example_graph (blank_page 800 600)) = Returned
  /\ map rl_link
       (resolved_links_of (fst (render example_graph (blank_page 800 600))))
     = links example_graph.
Proof.
  assert (nodes example_graph <> []) as Hne by discriminate.
  assert (snd (render example_graph (blank_page 800 600)) = Returned) as Hret
    by reflexivity.
  split; [exact Hne|]. split; [exact Hret|].
  exact (proj1 (resolved_links example_graph 800 600 Hne Hret)).
Defined.

(** ** What the handlers keep *)

Lemma group_shape_applyFilters_node (s dept arch : string) (gr : node_g) :
  group_shape (applyFilters_node s dept arch gr) = group_shape gr.
Proof.
  unfold group_shape, applyFilters_node. cbn.
  now destruct (highlighted s (g_datum gr)).
Qed.

Lemma line_shape_applyFilters_link (l : line) :
  line_shape (applyFilters_link l) = line_shape l.
Proof. reflexivity. Qed.

Lemma applyFilters_node_idempotent (s dept arch : string) (gr : node_g) :
  applyFilters_node s dept arch (applyFilters_node s dept arch gr)
  = applyFilters_node s dept arch gr.
Proof.
  unfold applyFilters_node. cbn.
  now destruct (highlighted s (g_datum gr)).
Qed.

Lemma applyFilters_child_idempotent (s dept arch : string) (c : svg_child) :
  applyFilters_child s dept arch (applyFilters_child s dept arch c)
  = applyFilters_child s dept arch c.
Proof.
  destruct c as [t | ls gs]; cbn; [reflexivity|].
  rewrite !map_map. f_equal.
  apply map_ext. intros gr. apply applyFilters_node_idempotent.
Qed.

(** X7.  Running [applyFilters] again on unchanged inputs changes
    nothing: the page after two runs is the page after one. *)
Theorem applyFilters_idempotent :
  forall p : page, applyFilters (applyFilters p) = applyFilters p.
Proof.
  intros p. unfold applyFilters. cbn. unfold set_svg. cbn. f_equal.
  rewrite map_map. apply map_ext. intros c.
  apply applyFilters_child_idempotent.
Qed.

Lemma handle_groups_shape (e : event) (p : page) :
  map group_shape (groups_of (handle e p)) = map group_shape (groups_of p).
Proof.
  destruct e; cbn [handle];
    try (rewrite groups_of_applyFilters, map_map;
         apply map_ext; intros gr; apply group_shape_applyFilters_node);
    try reflexivity;
    unfold resize, on_drag; cbn; destruct (sim p); reflexivity.
Qed.

Lemma handle_lines_shape (e : event) (p : page) :
  map line_shape (lines_of (handle e p)) = map line_shape (lines_of p).
Proof.
  rewrite handle_lines. destruct (filter_event e); [|reflexivity].
  rewrite map_map. reflexivity.
Qed.

(** X8.  No sequence of events adds, removes or reorders a node group or
    a line, or changes the datum bound to it, a radius, a fill or stroke
    color, a label or a stroke width: the handlers only write opacities
    and the ring's stroke-opacity and stroke-width. *)
Theorem events_keep_scene :
  forall (es : list event) (p : page),
    map group_shape (groups_of (run es p)) = map group_shape (groups_of p)
    /\ map line_shape (lines_of (run es p)) = map line_shape (lines_of p).
Proof.
  induction es as [|e es IH]; intros p; cbn; [split; reflexivity|].
  destruct (IH (dispatch p e)) as [Hg Hl]. fold (run es (dispatch p e)).
  rewrite Hg, Hl. unfold dispatch. destruct (listening p); [|split; reflexivity].
  split; [apply handle_groups_shape | apply handle_lines_shape].
Qed.

Lemma append_assoc (a b c : string) : (a +:+ b) +:+ c = a +:+ (b +:+ c).
Proof.
  induction a as [|x a IH]; [reflexivity|].
  change (String x ((a +:+ b) +:+ c) = String x (a +:+ (b +:+ c))).
  f_equal. exact IH.
Qed.

Lemma includes_trans (s t u : string) :
  includes s t = true -> includes t u = true -> includes s u = true.
Proof.
  rewrite !includes_spec.
  intros (a & b & ->) (c & d & ->).
  exists (a +:+ c), (d +:+ b).
  now rewrite !append_assoc.
Qed.

Lemma toLowerCase_nonempty (s : string) :
  truthy_string (toLowerCase s) = truthy_string s.
Proof. now destruct s. Qed.

(** X9.  Typing more never shows more: a node that is visible for a
    search text is visible for every part of that text under the same
    selections, and carries the highlight ring for every non-empty part
    of it. *)
Theorem search_narrowing :
  forall (pre s post dept arch : string) (d : node),
    visible (toLowerCase (pre +:+ s +:+ post)) dept arch d = true ->
    visible (toLowerCase s) dept arch d = true
    /\ (s <> "" -> highlighted (toLowerCase s) d = true).
Proof.
  intros pre s post dept arch d H. unfold visible in *.
  apply andb_true_iff in H. destruct H as [H Ha].
  apply andb_true_iff in H. destruct H as [Hs Hd].
  assert (s = "" \/ includes (toLowerCase (node_name d)) (toLowerCase s) = true)
    as Hcase.
  { destruct s as [|c s]; [now left | right].
    unfold matchSearch in Hs. apply orb_true_iff in Hs.
    destruct Hs as [Hs|Hs].
    - apply negb_true_iff in Hs. rewrite toLowerCase_nonempty in Hs.
      destruct pre; discriminate.
    - apply (includes_trans _ _ _ Hs). apply includes_spec.
      exists (toLowerCase pre), (toLowerCase post).
      now rewrite !toLowerCase_app. }
  split.
  - rewrite Hd, Ha, !andb_true_r. unfold matchSearch.
    destruct Hcase as [->|Hi]; [reflexivity|].
    rewrite Hi. apply orb_true_r.
  - intros Hne. unfold highlighted. rewrite toLowerCase_nonempty.
    destruct Hcase as [->|Hi]; [congruence|].
    rewrite Hi. apply truthy_string_true in Hne. now rewrite Hne.
Qed.

(** X9 on Ada Lovelace: visible for "da Lo", hence for "a l". *)
Lemma search_narrowing_example :
  visible (toLowerCase ("d" +:+ "a L" +:+ "o")) "" "" ada = true
  /\ visible (toLowerCase "a L") "" "" ada = true
  /\ ("a L" <> "" -> highlighted (toLowerCase "a L") ada = true).
Proof.
  assert (visible (toLowerCase ("d" +:+ "a L" +:+ "o")) "" "" ada = true)
    as H by reflexivity.
  split; [exact H|].
  exact (search_narrowing "d" "a L" "o" "" "" ada H).
Defined.

(** X10.  With the search field empty and nothing selected,
    [applyFilters] puts every node group at opacity 1 with the baseline
    ring (stroke-opacity 0.3, stroke-width 2). *)
Theorem filters_cleared :
  forall (p : page) (gr : node_g),
    searchInput_value p = "" ->
    filterDept_value p = "" ->
    filterArch_value p = "" ->
    In gr (groups_of (applyFilters p)) ->
    g_opacity gr = Some 1%Q
    /\ c_stroke_opacity (g_ring gr) = Some 0.3%Q
    /\ c_stroke_width (g_ring gr) = 2%Q.
Proof.
  intros p gr Hs Hd Ha Hin.
  rewrite groups_of_applyFilters, Hs, Hd, Ha in Hin.
  apply in_map_iff in Hin. destruct Hin as (g0 & <- & _).
  repeat split.
Qed.

(** X10 on the graph of section 8, before anything is typed. *)
Lemma filters_cleared_witness :
  searchInput_value (fst (render example_graph (blank_page 800 600))) = ""
  /\ g_opacity
       (applyFilters_node "" "" "" (draw_node (nodes example_graph) alan))
     = Some 1%Q.
Proof.
  split; [reflexivity|].
  apply (filters_cleared (fst (render example_graph (blank_page 800 600))));
    try reflexivity.
  rewrite groups_of_applyFilters. right. left. reflexivity.
Defined.

(** ** More on the tooltip *)

Section TooltipMore.
Local Open Scope Q_scope.

Lemma tooltip_position_cases (cx cy rl rt w h : Q) :
  (fst (tooltip_position cx cy rl rt w h) = cx - rl + 16
   /\ cx - rl + 16 + 200 <= w
   \/ fst (tooltip_position cx cy rl rt w h) = cx - rl + 16 - 220
      /\ w < cx - rl + 16 + 200)
  /\ (snd (tooltip_position cx cy rl rt w h) = cy - rt + 16
      /\ cy - rt + 16 + 180 <= h
      \/ snd (tooltip_position cx cy rl rt w h) = cy - rt + 16 - 200
         /\ h < cy - rt + 16 + 180).
Proof.
  unfold tooltip_position. cbn [fst snd]. split.
  - destruct (QMicromega.Qlt_bool w (cx - rl + 16 + 200)) eqn:E.
    + right. split; [reflexivity | now apply QMicromega.Qlt_bool_iff].
    + left. split; [reflexivity | now apply Qlt_bool_false].
  - destruct (QMicromega.Qlt_bool h (cy - rt + 16 + 180)) eqn:E.
    + right. split; [reflexivity | now apply QMicromega.Qlt_bool_iff].
    + left. split; [reflexivity | now apply Qlt_bool_false].
Qed.

(** X11.  A tooltip no larger than 200 by 180 never lies under the
    pointer: it is entirely to the right of the pointer or entirely to
    its left, and entirely below it or entirely above it, wherever the
    pointer is and whatever the size of the container. *)
Theorem tooltip_clear_of_pointer :
  forall (cx cy rl rt w h tw th : Q),
    tw <= 200 ->
    th <= 180 ->
    (cx - rl < fst (tooltip_position cx cy rl rt w h)
     \/ fst (tooltip_position cx cy rl rt w h) + tw < cx - rl)
    /\ (cy - rt < snd (tooltip_position cx cy rl rt w h)
        \/ snd (tooltip_position cx cy rl rt w h) + th < cy - rt).
Proof.
  intros cx cy rl rt w h tw th Htw Hth.
  destruct (tooltip_position_cases cx cy rl rt w h)
    as [[[-> _]|[-> _]] [[-> _]|[-> _]]];
    split; try (left; lra); try (right; lra).
Qed.

Lemma tooltip_clear_of_pointer_example :
  (200 <= 200 /\ 180 <= 180)
  /\ (710 - 10 < fst (tooltip_position 710 100 10 20 800 600)
      \/ fst (tooltip_position 710 100 10 20 800 600) + 200 < 710 - 10)
  /\ (100 - 20 < snd (tooltip_position 710 100 10 20 800 600)
      \/ snd (tooltip_position 710 100 10 20 800 600) + 180 < 100 - 20).
Proof.
  assert (200 <= 200) as H1 by lra. assert (180 <= 180) as H2 by lra.
  split; [split; assumption|].
  exact (tooltip_clear_of_pointer 710 100 10 20 800 600 200 180 H1 H2).
Defined.

(** X12.  In a container at least 420 wide and 380 high, the position
    computed for a pointer inside the container is never left of or
    above the container: the flip to the other side of the pointer has
    room.  (In a narrower container it has not: at width 300 a pointer
    at 100 puts the tooltip at -104.) *)
Theorem tooltip_left_top_inside :
  forall (cx cy rl rt w h : Q),
    420 <= w ->
    380 <= h ->
    0 <= cx - rl <= w ->
    0 <= cy - rt <= h ->
    0 <= fst (tooltip_position cx cy rl rt w h)
    /\ 0 <= snd (tooltip_position cx cy rl rt w h).
Proof.
  intros cx cy rl rt w h Hw Hh Hx Hy.
  destruct (tooltip_position_cases cx cy rl rt w h)
    as [[[-> ?]|[-> ?]] [[-> ?]|[-> ?]]]; split; lra.
Qed.

Lemma tooltip_left_top_inside_example :
  (420 <= 800 /\ 380 <= 600)
  /\ 0 <= fst (tooltip_position 710 520 10 20 800 600)
  /\ 0 <= snd (tooltip_position 710 520 10 20 800 600).
Proof.
  assert (420 <= 800) as H1 by lra. assert (380 <= 600) as H2 by lra.
  split; [split; assumption|].
  apply (tooltip_left_top_inside 710 520 10 20 800 600 H1 H2); lra.
Defined.

Example tooltip_past_left_edge :
  tooltip_position 100 0 0 0 300 600 = (-104, 16).
Proof. reflexivity. Qed.

End TooltipMore.

(** ** The detail panel over a history of events *)

Lemma run_app (es fs : list event) (p : page) :
  run (es ++ fs) p = run fs (run es p).
Proof. unfold run. apply fold_left_app. Qed.

Lemma dispatch_listening (e : event) (p : page) :
  listening (dispatch p e) = listening p.
Proof.
  unfold dispatch. destruct (listening p) eqn:E; [|exact E].
  now rewrite handle_listening.
Qed.

Lemma run_listening (es : list event) :
  forall p, listening (run es p) = listening p.
Proof.
  induction es as [|e es IH]; intros p; cbn; [reflexivity|].
  fold (run es (dispatch p e)). now rewrite IH, dispatch_listening.
Qed.

Lemma handle_sidebar_other (e : event) (p : page) :
  panel_event e = false -> sidebar (handle e p) = sidebar p.
Proof.
  destruct e; cbn; try discriminate; intros _; try reflexivity;
    unfold resize, on_drag; cbn; destruct (sim p); reflexivity.
Qed.

(** X13.  The detail panel holds one node at a time.  Whatever happened
    before, a click on a node leaves the panel open on that node, and a
    click on the canvas or on the close control leaves it closed with
    its content kept; no other event (search, selection, hover, drag,
    resize, tick) opens, closes or rewrites it. *)
Theorem sidebar_single_panel :
  forall (es : list event) (p : page) (d : node) (e : event),
    listening p = true ->
    sidebar (run (es ++ [NodeClick d]) p)
    = {| sidebar_open := true; sidebar_html := Some (sidebar_for d) |}
    /\ sidebar (run (es ++ [SvgClick]) p)
       = {| sidebar_open := false;
            sidebar_html := sidebar_html (sidebar (run es p)) |}
    /\ sidebar (run (es ++ [CloseSidebarClick]) p)
       = {| sidebar_open := false;
            sidebar_html := sidebar_html (sidebar (run es p)) |}
    /\ (panel_event e = false ->
        sidebar (run (es ++ [e]) p) = sidebar (run es p)).
Proof.
  intros es p d e Hl.
  assert (listening (run es p) = true) as Hl' by now rewrite run_listening.
  rewrite !run_app. cbn. unfold dispatch. rewrite Hl'.
  repeat split. intros He. now apply handle_sidebar_other.
Qed.

Lemma sidebar_single_panel_example :
  listening (fst (render example_graph (blank_page 800 600))) = true
  /\ sidebar (run ([NodeClick alan; SearchInput "x"] ++ [NodeClick ada])
                (fst (render example_graph (blank_page 800 600))))
     = {| sidebar_open := true; sidebar_html := Some (sidebar_for ada) |}.
Proof.
  assert (listening (fst (render example_graph (blank_page 800 600))) = true)
    as H by reflexivity.
  split; [exact H|].
  exact (proj1 (sidebar_single_panel [NodeClick alan; SearchInput "x"]
                  _ ada SvgClick H)).
Defined.

(** ** Resize *)

Lemma set_force_names (name : string) (f : force) (fs : list (string * force)) :
  In name (map fst fs) -> map fst (set_force name f fs) = map fst fs.
Proof.
  induction fs as [|[n g] fs IH]; cbn; [intros []|].
  destruct (String.eqb n name) eqn:E; [reflexivity|].
  intros [H|H]; [apply String.eqb_neq in E; congruence|].
  cbn. now rewrite IH.
Qed.

Lemma set_force_In (name : string) (f : force) (fs : list (string * force)) :
  In (name, f) (set_force name f fs).
Proof.
  induction fs as [|[n g] fs IH]; cbn; [now left|].
  destruct (String.eqb n name) eqn:E.
  - apply String.eqb_eq in E. subst. now left.
  - now right.
Qed.

Lemma set_force_other (name : string) (f : force) (fs : list (string * force))
    (n : string) (g : force) :
  n <> name -> In (n, g) (set_force name f fs) <-> In (n, g) fs.
Proof.
  intros Hn. induction fs as [|[m k] fs IH]; cbn.
  - split; [intros [H|[]]; congruence | intros []].
  - destruct (String.eqb m name) eqn:E; cbn.
    + apply String.eqb_eq in E. subst.
      split; (intros [H|H]; [congruence | now right]).
    + rewrite IH. reflexivity.
Qed.

(** X14.  A resize of a page whose simulation has a centering force
    replaces that force by one at the middle of the new size and leaves
    every other force, and the order of the forces, as they were; it
    sets alpha to 0.3 and restarts the simulation; and it changes
    nothing else: the scene, the search text and the selections, the
    detail panel and the tooltip stay as they are. *)
Theorem resize_keeps_state :
  forall (p : page) (w h : Q),
    In "center" (map fst (forces_of p)) ->
    map fst (forces_of (resize w h p)) = map fst (forces_of p)
    /\ In ("center", ForceCenter (w / 2) (h / 2)) (forces_of (resize w h p))
    /\ (forall n f, n <> "center" ->
          In (n, f) (forces_of (resize w h p)) <-> In (n, f) (forces_of p))
    /\ option_map sim_alpha (sim (resize w h p)) = Some 0.3%Q
    /\ option_map sim_running (sim (resize w h p)) = Some true
    /\ option_map sim_alphaTarget (sim (resize w h p))
       = option_map sim_alphaTarget (sim p)
    /\ (width (resize w h p), height (resize w h p)) = (w, h)
    /\ svg (resize w h p) = svg p
    /\ (searchInput_value (resize w h p), filterDept_value (resize w h p),
        filterArch_value (resize w h p))
       = (searchInput_value p, filterDept_value p, filterArch_value p)
    /\ sidebar (resize w h p) = sidebar p
    /\ tooltip (resize w h p) = tooltip p.
Proof.
  intros p w h Hc. unfold forces_of, resize in *. cbn [sim set_size].
  destruct (sim p) as [s|]; [|destruct Hc]. cbn.
  split; [now apply set_force_names|].
  split; [apply set_force_In|].
  split; [intros n f Hn; now apply set_force_other|].
  repeat split.
Qed.

Lemma resize_keeps_state_example :
  In "center"
    (map fst (forces_of (fst (render example_graph (blank_page 800 600)))))
  /\ map fst
       (forces_of
          (resize 1000 700 (fst (render example_graph (blank_page 800 600)))))
     = ["link"; "charge"; "center"; "collision"]
  /\ In ("center", ForceCenter (1000 / 2) (700 / 2))
       (forces_of
          (resize 1000 700 (fst (render example_graph (blank_page 800 600))))).
Proof.
  assert (In "center"
            (map fst
               (forces_of (fst (render example_graph (blank_page 800 600))))))
    as H by (right; right; left; reflexivity).
  split; [exact H|].
  destruct (resize_keeps_state _ 1000 700 H) as (H1 & H2 & _).
  split; [exact H1 | exact H2].
Defined.

(** ** Several gestures at once *)

Section DragCounter.
Local Open Scope Q_scope.

Lemma drag_dispatch_invariant (st : nat * simulation) (e : pointer_event) :
  sim_alphaTarget (snd st) = (if Nat.eqb (fst st) 0 then 0 else 0.3) ->
  sim_alphaTarget (snd (drag_dispatch st e))
  = (if Nat.eqb (fst (drag_dispatch st e)) 0 then 0 else 0.3).
Proof.
  destruct st as [n s]. cbn [fst snd]. intros H.
  destruct e as [d|d]; cbn [drag_dispatch fst snd].
  - unfold dragStarted. cbn [fst]. destruct n; cbn; [reflexivity | exact H].
  - destruct n as [|n]; cbn [fst snd]; [exact H|].
    unfold dragEnded. cbn [fst]. destruct n; cbn; [reflexivity | exact H].
Qed.

Lemma drag_dispatch_forces (st : nat * simulation) (e : pointer_event) :
  sim_forces (snd (drag_dispatch st e)) = sim_forces (snd st).
Proof.
  destruct st as [n s], e as [d|d]; cbn.
  - now destruct n.
  - destruct n as [|n]; [reflexivity|]. cbn. now destruct n.
Qed.

(** X15.  Starting with no gesture in progress and the decay target at
    0, after any sequence of gesture starts and ends the decay target is
    0.3 exactly while a gesture is in progress and 0 when none is: an
    ending gesture does not cool the simulation under a finger that is
    still dragging.  The forces are never touched. *)
Theorem drag_keeps_simulation_hot :
  forall (es : list pointer_event) (s : simulation),
    sim_alphaTarget s = 0 ->
    sim_alphaTarget (snd (drag_run es (O, s)))
    = (if Nat.eqb (fst (drag_run es (O, s))) 0 then 0 else 0.3)
    /\ sim_forces (snd (drag_run es (O, s))) = sim_forces s.
Proof.
  intros es s H0.
  assert (forall st : nat * simulation,
            sim_alphaTarget (snd st) = (if Nat.eqb (fst st) 0 then 0 else 0.3) ->
            sim_alphaTarget (snd (drag_run es st))
            = (if Nat.eqb (fst (drag_run es st)) 0 then 0 else 0.3)
            /\ sim_forces (snd (drag_run es st)) = sim_forces (snd st)) as Hgen.
  { induction es as [|e es IH]; intros st Hst; cbn; [now split|].
    fold (drag_run es (drag_dispatch st e)).
    destruct (IH (drag_dispatch st e)) as [Ha Hf].
    - now apply drag_dispatch_invariant.
    - split; [exact Ha|]. now rewrite Hf, drag_dispatch_forces. }
  apply (Hgen (O, s)). exact H0.
Qed.

(** Two fingers: the first lifts while the second still drags. *)
Lemma drag_keeps_simulation_hot_example :
  sim_alphaTarget forceSimulation = 0
  /\ (let d := {| x := 0; y := 0; vx := 0; vy := 0;
                  fx := None; fy := None |} in
      sim_alphaTarget
        (snd (drag_run [PointerDown d; PointerDown d; PointerUp d]
                (O, forceSimulation)))
      = (if Nat.eqb
              (fst (drag_run [PointerDown d; PointerDown d; PointerUp d]
                      (O, forceSimulation))) 0
         then 0 else 0.3)).
Proof.
  assert (sim_alphaTarget forceSimulation = 0) as H by reflexivity.
  split; [exact H|].
  exact (proj1 (drag_keeps_simulation_hot _ forceSimulation H)).
Defined.

End DragCounter.

(** ** Labels *)

Lemma first_token_no_space (s : string) :
  includes (first_token s) " " = false.
Proof.
  induction s as [|c s IH]; [reflexivity|]. cbn [first_token].
  destruct (Ascii.eqb c " ") eqn:E; [reflexivity|].
  cbn. rewrite E, IH. reflexivity.
Qed.

Lemma first_token_split (s : string) :
  s = first_token s \/ exists rest, s = first_token s +:+ " " +:+ rest.
Proof.
  induction s as [|c s IH]; [now left|]. cbn [first_token].
  destruct (Ascii.eqb c " ") eqn:E.
  - apply Ascii.eqb_eq in E. subst. right. now exists s.
  - destruct IH as [IH | [rest IH]].
    + left. f_equal. exact IH.
    + right. exists rest.
      change (String c s = String c (first_token s +:+ " " +:+ rest)).
      f_equal. exact IH.
Qed.

(** X16.  The label under a node is the node's name up to, and without,
    its first space: it contains no space, the name is the label alone
    or the label, a space and a rest, and a name without a space is
    shown whole. *)
Theorem label_is_first_word :
  forall (ns : list node) (d : node),
    t_text (g_label (draw_node ns d)) = first_token (node_name d)
    /\ includes (first_token (node_name d)) " " = false
    /\ (node_name d = first_token (node_name d)
        \/ exists rest,
             node_name d = first_token (node_name d) +:+ " " +:+ rest)
    /\ (includes (node_name d) " " = false ->
        first_token (node_name d) = node_name d).
Proof.
  intros ns d. split; [reflexivity|].
  split; [apply first_token_no_space|].
  split; [apply first_token_split|].
  intros Hno. destruct (first_token_split (node_name d)) as [H|[rest H]];
    [now symmetry|].
  exfalso. rewrite H in Hno at 1.
  assert (includes (first_token (node_name d) +:+ " " +:+ rest) " " = true)
    as Hyes by (apply includes_spec; now exists (first_token (node_name d)), rest).
  congruence.
Qed.

Example label_of_ada :
  t_text (g_label (draw_node (nodes example_graph) ada)) = "Ada".
Proof. reflexivity. Qed.

(** ** Colors are never missing *)

(** X17.  The color expression never yields [undefined] or the empty
    string, whatever the archetype, and two archetypes of the table
    never share a color: the legend tells them apart. *)
Theorem archetypeColor_defined :
  (forall a : option string,
     truthy (archetypeColor a) = true
     /\ (archetypeColor a = JUndefined -> False)
     /\ (archetypeColor a = JString "" -> False))
  /\ (forall a b c : string,
        ARCHETYPE_COLORS !! a = Some c -> ARCHETYPE_COLORS !! b = Some c ->
        a = b).
Proof.
  split.
  - intros a.
    assert (truthy (archetypeColor a) = true) as Ht.
    { unfold archetypeColor.
      destruct (truthy (get_property ARCHETYPE_COLORS (toPropertyKey a)))
        eqn:E; [exact E | reflexivity]. }
    split; [exact Ht|].
    split; intros H; rewrite H in Ht; discriminate.
  - intros a b c Ha Hb.
    apply ARCHETYPE_COLORS_lookup in Ha. apply ARCHETYPE_COLORS_lookup in Hb.
    cbn in Ha, Hb.
    repeat (destruct Ha as [Ha|Ha]; [injection Ha as <- <-|]);
      try destruct Ha;
      repeat (destruct Hb as [Hb|Hb];
              [first [discriminate Hb | now injection Hb as <-]|]);
      destruct Hb.
Qed.

(** ** The tooltip over a history of events *)

Lemma handle_tooltip_other (e : event) (p : page) :
  hover_event e = false ->
  tooltip_show (tooltip (handle e p)) = tooltip_show (tooltip p)
  /\ tooltip_html (tooltip (handle e p)) = tooltip_html (tooltip p).
Proof.
  destruct e; cbn; try discriminate; intros _; try (split; reflexivity);
    unfold resize, on_drag; cbn; destruct (sim p); split; reflexivity.
Qed.

(** X18.  Whatever happened before, entering a node shows the tooltip
    with that node's data and at most its first three capabilities (all
    of them when it has no more than three), while the detail panel
    lists them all; leaving the node hides the tooltip and keeps its
    content; no other event shows, hides or rewrites the tooltip. *)
Theorem tooltip_hover :
  forall (es : list event) (p : page) (d : node) (e : event),
    listening p = true ->
    (tooltip_show (tooltip (run (es ++ [NodeMouseEnter d]) p)) = true
     /\ tooltip_html (tooltip (run (es ++ [NodeMouseEnter d]) p))
        = Some (tooltip_for d))
    /\ (length (tt_capabilities (tooltip_for d)) <= 3)%nat
    /\ (exists rest,
          node_capabilities d
          = (tt_capabilities (tooltip_for d) ++ rest)%list)
    /\ ((length (node_capabilities d) <= 3)%nat ->
        tt_capabilities (tooltip_for d) = node_capabilities d)
    /\ sb_capabilities (sidebar_for d) = node_capabilities d
    /\ (tooltip_show (tooltip (run (es ++ [NodeMouseLeave]) p)) = false
        /\ tooltip_html (tooltip (run (es ++ [NodeMouseLeave]) p))
           = tooltip_html (tooltip (run es p)))
    /\ (hover_event e = false ->
        tooltip_show (tooltip (run (es ++ [e]) p))
        = tooltip_show (tooltip (run es p))
        /\ tooltip_html (tooltip (run (es ++ [e]) p))
           = tooltip_html (tooltip (run es p))).
Proof.
  intros es p d e Hl.
  assert (listening (run es p) = true) as Hl' by now rewrite run_listening.
  rewrite !run_app. cbn [run fold_left]. unfold dispatch. rewrite Hl'.
  split; [split; reflexivity|].
  split; [cbn; apply firstn_le_length|].
  split; [exists (skipn 3 (node_capabilities d)); cbn;
          symmetry; apply firstn_skipn|].
  split; [intros H; cbn; now apply firstn_all2|].
  split; [reflexivity|].
  split; [split; reflexivity|].
  intros He. now apply handle_tooltip_other.
Qed.

Lemma tooltip_hover_example :
  listening (fst (render example_graph (blank_page 800 600))) = true
  /\ tooltip_html
       (tooltip (run ([NodeMouseEnter alan; NodeMouseLeave]
                      ++ [NodeMouseEnter ada])
                   (fst (render example_graph (blank_page 800 600)))))
     = Some (tooltip_for ada).
Proof.
  assert (listening (fst (render example_graph (blank_page 800 600))) = true)
    as H by reflexivity.
  split; [exact H|].
  exact (proj2 (proj1 (tooltip_hover [NodeMouseEnter alan; NodeMouseLeave]
                         _ ada SvgClick H))).
Defined.

(** ** The base script *)

Lemma close_at_app (pre : list alert) (a : alert) (al : list alert) :
  close_at (length pre) (pre ++ a :: al) = (pre ++ close_alert a :: al)%list.
Proof. induction pre as [|b pre IH]; cbn; [reflexivity | now rewrite IH]. Qed.

(** Firing the timers of a stretch of alerts closes the dismissible
    ones of that stretch and no other alert. *)
Lemma fire_dismiss_timers (due : nat) (al : list alert) :
  forall pre later : list alert,
    fold_left (fun l tm => close_at (snd tm) l)
      (dismiss_timers due (length pre) al) (pre ++ al ++ later)%list
    = (pre ++ map dismissed al ++ later)%list.
Proof.
  induction al as [|a al IH]; intros pre later; [reflexivity|].
  cbn [dismiss_timers map]. unfold dismissed at 1.
  destruct (alert_dismissible a && alert_open a).
  - cbn [fold_left snd app]. rewrite close_at_app.
    specialize (IH (pre ++ [close_alert a])%list later).
    rewrite length_app, Nat.add_1_r, <- !app_assoc in IH. exact IH.
  - specialize (IH (pre ++ [a])%list later).
    rewrite length_app, Nat.add_1_r, <- !app_assoc in IH. exact IH.
Qed.

Lemma dismiss_timers_due (due now i : nat) (al : list alert) :
  List.filter (fun tm : nat * nat => (fst tm <=? now)%nat)
    (dismiss_timers due i al)
  = if (due <=? now)%nat then dismiss_timers due i al else [].
Proof.
  revert i. induction al as [|a al IH]; intros i; cbn.
  - now destruct (due <=? now)%nat.
  - destruct (alert_dismissible a && alert_open a); [|apply IH].
    cbn. rewrite IH. now destruct (due <=? now)%nat.
Qed.

Lemma show_alerts (later : list alert) :
  forall doc,
    doc_alerts (fold_left (fun d a => show_alert a d) later doc)
    = (doc_alerts doc ++ later)%list
    /\ doc_timers (fold_left (fun d a => show_alert a d) later doc)
       = doc_timers doc
    /\ doc_now (fold_left (fun d a => show_alert a d) later doc) = doc_now doc
    /\ doc_console (fold_left (fun d a => show_alert a d) later doc)
       = doc_console doc.
Proof.
  induction later as [|a later IH]; intros doc; cbn.
  - now rewrite app_nil_r.
  - destruct (IH (show_alert a doc)) as (H1 & H2 & H3 & H4).
    rewrite H1, H2, H3, H4. cbn. now rewrite <- app_assoc.
Qed.

(** X19.  On a page with no timer pending when it loads: once 5000 ms
    have passed since [DOMContentLoaded], every alert that was then in
    the document with the class [alert-dismissible] is closed; before
    that none is.  An alert without the class, and an alert shown after
    the load, is never closed by the script.  The load logs one line. *)
Theorem alerts_dismiss_themselves :
  forall (doc : document) (later : list alert) (t : nat),
    doc_timers doc = [] ->
    doc_alerts
      (advance t
         (fold_left (fun d a => show_alert a d) later (onDOMContentLoaded doc)))
    = ((if (5000 <=? t)%nat then map dismissed (doc_alerts doc)
        else doc_alerts doc) ++ later)%list
    /\ doc_console
         (advance t
            (fold_left (fun d a => show_alert a d) later
               (onDOMContentLoaded doc)))
       = (doc_console doc ++ ["N.E.S.T loaded ✓"])%list.
Proof.
  intros doc later t Ht. unfold advance. cbn [doc_alerts doc_console].
  destruct (show_alerts later (onDOMContentLoaded doc)) as (H1 & H2 & H3 & H4).
  rewrite H1, H2, H3, H4. cbn [onDOMContentLoaded doc_alerts doc_timers
                               doc_now doc_console].
  rewrite Ht. cbn [app]. split; [|reflexivity].
  rewrite dismiss_timers_due.
  replace (doc_now doc + 5000 <=? doc_now doc + t)%nat with (5000 <=? t)%nat.
  - destruct (5000 <=? t)%nat; [|reflexivity].
    apply (fire_dismiss_timers _ (doc_alerts doc) [] later).
  - destruct (5000 <=? t)%nat eqn:E; symmetry.
    + apply Nat.leb_le in E. apply Nat.leb_le. lia.
    + apply Nat.leb_gt in E. apply Nat.leb_gt. lia.
Qed.

(** X19 on a flash message that can be dismissed and a banner that
    cannot, with a second flash message shown after the load. *)
Lemma alerts_dismiss_themselves_example :
  doc_timers example_document = []
  /\ map alert_open
       (doc_alerts
          (advance 5000
             (fold_left (fun d a => show_alert a d)
                [ {| alert_dismissible := true; alert_open := true |} ]
                (onDOMContentLoaded example_document))))
     = [false; true; true].
Proof.
  assert (doc_timers example_document = []) as H by reflexivity.
  split; [exact H|].
  rewrite (proj1 (alerts_dismiss_themselves example_document
                    [ {| alert_dismissible := true; alert_open := true |} ]
                    5000 H)).
  reflexivity.
Defined.

(** ** All of the graph or none of it *)

(** X20.  On a page that held nothing, [render] leaves either the whole
    graph or none of it: when it registered its handlers, the scene has
    one group per node and one line per link, in the order of the data
    and bound to them; when it did not (no node, or a link to an unknown
    node), the scene has no group and no line.  A part of the graph is
    never drawn. *)
Theorem render_all_or_nothing :
  forall (g : graph) (w h : Q),
    (listening (fst (render g (blank_page w h))) = true ->
     nodes g <> []
     /\ snd (render g (blank_page w h)) = Returned
     /\ map g_datum (groups_of (fst (render g (blank_page w h)))) = nodes g
     /\ map l_datum (lines_of (fst (render g (blank_page w h)))) = links g)
    /\ (listening (fst (render g (blank_page w h))) = false ->
        groups_of (fst (render g (blank_page w h))) = []
        /\ lines_of (fst (render g (blank_page w h))) = []
        /\ (nodes g = [] \/ exists e, snd (render g (blank_page w h)) = Thrown e)).
Proof.
  intros g w h. unfold render.
  destruct (nodes g) as [|d ns] eqn:Hns.
  - split; [discriminate|]. intros _. repeat split. now left.
  - destruct (forceLink_initialize (d :: ns) (links g)) as [e|rls].
    + split; [discriminate|]. intros _. repeat split. right. now exists e.
    + split; [|discriminate]. intros _.
      split; [discriminate|]. split; [reflexivity|].
      unfold groups_of, lines_of.
      cbn [fst svg set_listening set_sim set_svg set_controls blank_page app
           flat_map].
      rewrite !app_nil_r, !map_map. cbn. now rewrite !map_id.
Qed.
